(** * Contact service: a shallow embedding of the repository, the schemas,
      the entity and the routes, with the properties of the specification.

    The program is a FastAPI application over a SQLAlchemy session.  The
    embedding keeps the layers of the source:

    - [Calendar]  : the part of Python's [datetime.date] the repository uses;
    - values, rows of the table [contacts] and instances of the class
      [Contact] (entity/models.py);
    - the schemas (schemas/contact.py) with [model_dump];
    - the session: a table with its constraints, [commit], [refresh], [delete];
    - [ContactRepository] (repository/contacts.py);
    - [ContactService] and the handlers of routes/contacts.py.

    Strings are Rocq strings, one [ascii] per character.  Case folding is the
    one of the ASCII letters: how the database folds the other letters depends
    on its locale, and what the search matches is stated for filters made of
    ASCII characters. *)

From Stdlib Require Import ZArith String Ascii List Bool Lia.
From stdpp Require Import base decidable option list gmap strings.

Local Open Scope string_scope.
Local Open Scope Z_scope.

(** ** Calendar: [datetime.date] and [date + timedelta(days=n)] *)

Module Calendar.

Record date := mkDate { year : Z; month : Z; day : Z }.

#[global] Instance date_eq_dec : EqDecision date.
Proof. solve_decision. Defined.

Definition is_leap (y : Z) : bool :=
  (y mod 4 =? 0) && (negb (y mod 100 =? 0) || (y mod 400 =? 0)).

(** [_DAYS_IN_MONTH] and [_DAYS_BEFORE_MONTH] of the datetime module. *)
Definition DAYS_IN_MONTH (m : Z) : Z :=
  match m with
  | 1 => 31 | 2 => 28 | 3 => 31 | 4 => 30 | 5 => 31 | 6 => 30
  | 7 => 31 | 8 => 31 | 9 => 30 | 10 => 31 | 11 => 30 | 12 => 31
  | _ => 0
  end.

Definition DAYS_BEFORE_MONTH (m : Z) : Z :=
  match m with
  | 1 => 0 | 2 => 31 | 3 => 59 | 4 => 90 | 5 => 120 | 6 => 151
  | 7 => 181 | 8 => 212 | 9 => 243 | 10 => 273 | 11 => 304 | 12 => 334
  | _ => 0
  end.

Definition days_in_month (y m : Z) : Z :=
  if (m =? 2) && is_leap y then 29 else DAYS_IN_MONTH m.

Definition days_before_year (y : Z) : Z :=
  let y1 := y - 1 in y1 * 365 + y1 / 4 - y1 / 100 + y1 / 400.

Definition days_before_month (y m : Z) : Z :=
  DAYS_BEFORE_MONTH m + (if (2 <? m) && is_leap y then 1 else 0).

Definition toordinal (d : date) : Z :=
  days_before_year (year d) + days_before_month (year d) (month d) + day d.

Definition DI400Y : Z := 146097.
Definition DI100Y : Z := 36524.
Definition DI4Y : Z := 1461.
Definition MAXORDINAL : Z := 3652059.

(** [_ord2ymd]. *)
Definition fromordinal (n0 : Z) : date :=
  let n := n0 - 1 in
  let n400 := n / DI400Y in
  let n := n mod DI400Y in
  let y := n400 * 400 + 1 in
  let n100 := n / DI100Y in
  let n := n mod DI100Y in
  let n4 := n / DI4Y in
  let n := n mod DI4Y in
  let n1 := n / 365 in
  let n := n mod 365 in
  let y := y + n100 * 100 + n4 * 4 + n1 in
  if (n1 =? 4) || (n100 =? 4) then mkDate (y - 1) 12 31
  else
    let leapyear := (n1 =? 3) && (negb (n4 =? 24) || (n100 =? 3)) in
    let m := Z.shiftr (n + 50) 5 in
    let preceding :=
      DAYS_BEFORE_MONTH m + (if (2 <? m) && leapyear then 1 else 0) in
    if n <? preceding then
      let m' := m - 1 in
      let preceding' :=
        preceding
        - (DAYS_IN_MONTH m' + (if (m' =? 2) && leapyear then 1 else 0)) in
      mkDate y m' (n - preceding' + 1)
    else mkDate y m (n - preceding + 1).

(** [timedelta(days=n)] accepts at most 999999999 days either way; the sum
    must stay within the ordinals of the years 1..9999.  [None] is Python's
    [OverflowError]. *)
Definition add_days (d : date) (n : Z) : option date :=
  if (n <? -999999999) || (999999999 <? n) then None
  else
    let o := toordinal d + n in
    if (0 <? o) && (o <=? MAXORDINAL) then Some (fromordinal o) else None.

End Calendar.

Export Calendar.

(** ** Values, exceptions and the monad of the session

    Python values that reach a contact: [None], an [int], a [str], a
    [datetime.date]. *)

Inductive value :=
| VNone
| VInt (z : Z)
| VStr (s : string)
| VDate (d : date).

#[global] Instance value_eq_dec : EqDecision value.
Proof. solve_decision. Defined.

(** An object of a Python class: its attribute dictionary. *)
Abbreviation Instance := (gmap string value).

(** The keyword arguments of a call and the items of a dumped model, in order. *)
Abbreviation kwargs := (list (string * value)).

(** ** entity/models.py: the class [Contact], mapped to the table [contacts] *)

Module Contact.

Definition tablename : string := "contacts".

(** The mapped attributes of the class; [Contact.first_name] is the
    column, as in the source. *)
Inductive column :=
| id | first_name | last_name | email | phone | birthdate | aditional_data.

#[global] Instance column_eq_dec : EqDecision column.
Proof. solve_decision. Defined.

Definition name (c : column) : string :=
  match c with
  | id => "id"
  | first_name => "first_name"
  | last_name => "last_name"
  | email => "email"
  | phone => "phone"
  | birthdate => "birthdate"
  | aditional_data => "aditional_data"
  end.

Definition columns : list column :=
  [id; first_name; last_name; email; phone; birthdate; aditional_data].

(** [getattr(Contact, k)] for a name [k]: the column of that name, if the
    class has one.  (The class has no other attribute whose name is a field
    of a schema.) *)
Definition getattr (k : string) : option column :=
  List.find (fun c => String.eqb (name c) k) columns.

Definition hasattr (k : string) : bool :=
  match getattr k with Some _ => true | None => false end.

(** [String(n)], [Integer], [Date]. *)
Inductive sqltype := Integer | String (n : nat) | Date.

Definition type_ (c : column) : sqltype :=
  match c with
  | id => Integer
  | first_name => String 100
  | last_name => String 100
  | email => String 100
  | phone => String 20
  | birthdate => Date
  | aditional_data => String 500
  end.

Definition primary_key (c : column) : bool :=
  match c with id => true | _ => false end.

Definition nullable (c : column) : bool :=
  match c with aditional_data => true | _ => false end.

Definition unique (c : column) : bool :=
  match c with email | phone => true | _ => false end.

End Contact.

(** A row of the table [contacts]. *)
Module Row.

Record t := mk {
  id : Z;
  first_name : string;
  last_name : string;
  email : string;
  phone : string;
  birthdate : date;
  aditional_data : option string
}.

#[global] Instance eq_dec : EqDecision t.
Proof. solve_decision. Defined.

Definition get (c : Contact.column) (r : t) : value :=
  match c with
  | Contact.id => VInt (id r)
  | Contact.first_name => VStr (first_name r)
  | Contact.last_name => VStr (last_name r)
  | Contact.email => VStr (email r)
  | Contact.phone => VStr (phone r)
  | Contact.birthdate => VDate (birthdate r)
  | Contact.aditional_data =>
      match aditional_data r with Some s => VStr s | None => VNone end
  end.

End Row.

Abbreviation row := Row.t.

(** What the database refuses. *)
Inductive violation :=
| NotNull (c : Contact.column)
| Unique (c : Contact.column)
| TooLong (c : Contact.column)
| WrongType (c : Contact.column)
| OutOfRange                               (* an integer the driver cannot send *)
| NegativeLimit.

Inductive exn :=
| TypeError (msg : string)
| AttributeError (msg : string)
| OverflowError (msg : string)
| IntegrityError (v : violation)           (* sqlalchemy.exc.IntegrityError *)
| DBAPIError (v : violation)               (* sqlalchemy.exc.DBAPIError *)
| MultipleResultsFound
| InvalidRequestError
| HTTPException (status_code : Z) (detail : string).

(** The database behind the session: the rows of [contacts] in storage
    order and the sequence that generates [id]. *)
Record DB := mkDB {
  contacts : list row;
  contacts_id_seq : Z
}.

(** A computation on the session: it ends in a value or in an exception, and
    leaves a database either way. *)
Definition M (A : Type) : Type := DB -> (exn + A) * DB.

Definition ret {A} (a : A) : M A := fun db => (inr a, db).

Definition raise {A} (e : exn) : M A := fun db => (inl e, db).

Definition bind {A B} (m : M A) (k : A -> M B) : M B :=
  fun db =>
    match m db with
    | (inl e, db') => (inl e, db')
    | (inr a, db') => k a db'
    end.

Notation "'do' x <- c ; k" := (bind c (fun x => k))
  (at level 10, x name, c at level 100, k at level 200,
   format "'[v' 'do'  x  <-  c ; '/' k ']'").

Definition get_db : M DB := fun db => (inr db, db).

Definition put_db (db' : DB) : M unit := fun _ => (inr tt, db').

Definition from_option {A} (e : exn) (o : option A) : M A :=
  match o with Some a => ret a | None => raise e end.

Definition lift {A} (x : exn + A) : M A :=
  match x with inl e => raise e | inr a => ret a end.

(** ** schemas/contact.py *)

Definition opt_str (o : option string) : value :=
  match o with Some s => VStr s | None => VNone end.

Definition opt_date (o : option date) : value :=
  match o with Some d => VDate d | None => VNone end.

Module ContactSchema.

Record t := mk {
  first_name : string;
  last_name : string;
  email : string;
  phone : string;
  birthday : date;
  extra_info : option string
}.

(** [body.model_dump()]: every field, in the order of declaration. *)
Definition model_dump (body : t) : kwargs :=
  [ ("first_name", VStr (first_name body));
    ("last_name", VStr (last_name body));
    ("email", VStr (email body));
    ("phone", VStr (phone body));
    ("birthday", VDate (birthday body));
    ("extra_info", opt_str (extra_info body)) ].

Definition within (lo hi : nat) (s : string) : bool :=
  (lo <=? String.length s)%nat && (String.length s <=? hi)%nat.

(** The [Field] bounds of the schema ([EmailStr] checks the format of the
    address with a library of its own, which is left out). *)
Definition field_bounds (body : t) : bool :=
  within 3 100 (first_name body) && within 3 100 (last_name body)
  && within 5 50 (phone body)
  && match extra_info body with
     | Some s => (String.length s <=? 255)%nat
     | None => true
     end.

End ContactSchema.

Module ContactUpdateSchema.

(** A field is unset ([None]) or set to a value; [email], [birthday] and
    [extra_info] are [Optional] and can be set to Python's [None]. *)
Record t := mk {
  first_name : option string;
  last_name : option string;
  email : option (option string);
  phone : option string;
  birthday : option (option date);
  extra_info : option (option string)
}.

Definition item {A} (k : string) (f : A -> value) (o : option A) : kwargs :=
  match o with Some a => [(k, f a)] | None => [] end.

(** [body.model_dump(exclude_unset=True)]: the fields that were set. *)
Definition model_dump_exclude_unset (body : t) : kwargs :=
  item "first_name" VStr (first_name body)
  ++ item "last_name" VStr (last_name body)
  ++ item "email" opt_str (email body)
  ++ item "phone" VStr (phone body)
  ++ item "birthday" opt_date (birthday body)
  ++ item "extra_info" opt_str (extra_info body).

(** The [Field] bounds of the schema on the fields that are set ([EmailStr]
    left out, as for [ContactSchema]). *)
Definition field_bounds (body : t) : bool :=
  match first_name body with Some s => ContactSchema.within 3 100 s | None => true end
  && match last_name body with Some s => ContactSchema.within 3 100 s | None => true end
  && match phone body with Some s => ContactSchema.within 5 50 s | None => true end
  && match extra_info body with
     | Some (Some s) => (String.length s <=? 255)%nat
     | _ => true
     end.

End ContactUpdateSchema.

Module ContactResponse.

Record t := mk {
  id : Z;
  first_name : string;
  last_name : string;
  email : string;
  phone : string;
  birthday : date;
  extra_info : option string
}.

Definition req_int (obj : Instance) (k : string) : option Z :=
  match obj !! k with Some (VInt z) => Some z | _ => None end.

Definition req_str (obj : Instance) (k : string) : option string :=
  match obj !! k with Some (VStr s) => Some s | _ => None end.

Definition req_date (obj : Instance) (k : string) : option date :=
  match obj !! k with Some (VDate d) => Some d | _ => None end.

(** [extra_info: str = Field(default=None)]: the default when the object
    has no such attribute, a string otherwise. *)
Definition default_str (obj : Instance) (k : string) : option (option string) :=
  match obj !! k with
  | None => Some None
  | Some (VStr s) => Some (Some s)
  | Some _ => None
  end.

(** Validation of an object with [from_attributes=True]; [None] when a
    required attribute is missing or has the wrong type. *)
Definition model_validate (obj : Instance) : option t :=
  i ← req_int obj "id";
  fn ← req_str obj "first_name";
  ln ← req_str obj "last_name";
  em ← req_str obj "email";
  ph ← req_str obj "phone";
  bd ← req_date obj "birthday";
  ei ← default_str obj "extra_info";
  Some (mk i fn ln em ph bd ei).

End ContactResponse.

(** ** Objects of the class [Contact] *)

Definition setattr (self : Instance) (k : string) (v : value) : Instance :=
  <[k := v]> self.

(** The constructor a declarative class gets: every keyword must name an
    attribute of the class, and is then set on the new object. *)
Fixpoint Contact_init (kw : kwargs) (self : Instance) : exn + Instance :=
  match kw with
  | [] => inr self
  | (k, v) :: kw' =>
      if Contact.hasattr k then Contact_init kw' (setattr self k v)
      else inl (TypeError ("'" ++ k ++ "' is an invalid keyword argument for Contact"))
  end.

Definition Contact_new (kw : kwargs) : exn + Instance := Contact_init kw ∅.

(** The object the session builds from a row. *)
Definition load (r : row) : Instance :=
  list_to_map (List.map (fun c => (Contact.name c, Row.get c r)) Contact.columns).

(** [Contact.k] in the source: an attribute of the class, or [AttributeError]. *)
Definition Contact_attr (k : string) : M Contact.column :=
  from_option
    (AttributeError ("type object 'Contact' has no attribute '" ++ k ++ "'"))
    (Contact.getattr k).

(** ** The operators of the database the queries use *)

Module Sql.

(** The lower case of an ASCII letter; every other character is left as it
    is.  The database folds letters beyond ASCII as its locale says, which
    the embedding leaves open: no property below depends on how a character
    beyond ASCII is folded. *)
Definition lower_ascii (c : ascii) : ascii :=
  let n := nat_of_ascii c in
  if ((65 <=? n) && (n <=? 90))%nat then ascii_of_nat (n + 32) else c.

Definition lower (s : list ascii) : list ascii := List.map lower_ascii s.

(** [s LIKE p]: [%] stands for any run of characters, [_] for any one
    character, and a backslash makes the character after it literal.  A
    pattern that ends in a lone backslash matches nothing here (the database
    rejects it; the patterns of [search_contacts] end in [%]). *)
Fixpoint like (p s : list ascii) {struct p} : bool :=
  match p with
  | [] => match s with [] => true | _ :: _ => false end
  | c :: p' =>
      if (c =? "%")%char then
        (fix any (s : list ascii) : bool :=
           like p' s
           || match s with [] => false | _ :: s' => any s' end) s
      else if (c =? "_")%char then
        match s with [] => false | _ :: s' => like p' s' end
      else if (c =? "\")%char then
        match p' with
        | [] => false
        | e :: p'' =>
            match s with
            | [] => false
            | x :: s' => (x =? e)%char && like p'' s'
            end
        end
      else
        match s with
        | [] => false
        | x :: s' => (x =? c)%char && like p' s'
        end
  end.

(** [s ILIKE p]: [LIKE] without regard to the case of the ASCII letters. *)
Definition ilike (s p : string) : bool :=
  like (lower (list_ascii_of_string p)) (lower (list_ascii_of_string s)).

(** [column.ilike(p)] on the value of a column; a NULL matches nothing. *)
Definition ilike_value (v : value) (p : string) : bool :=
  match v with VStr s => ilike s p | _ => false end.

(** [date_part('day', v)]; NULL for a NULL. *)
Definition date_part_day (v : value) : option Z :=
  match v with VDate d => Some (day d) | _ => None end.

(** [x BETWEEN lo AND hi], [x >= y], [x <= y] with a possibly NULL [x]:
    a NULL comparison does not select the row. *)
Definition between (x : option Z) (lo hi : Z) : bool :=
  match x with Some d => (lo <=? d) && (d <=? hi) | None => false end.

Definition ge (x : option Z) (y : Z) : bool :=
  match x with Some d => y <=? d | None => false end.

Definition le (x : option Z) (y : Z) : bool :=
  match x with Some d => d <=? y | None => false end.

(** [ORDER BY key ASC]: NULLs last; rows with equal keys keep their
    order. *)
Definition key_le (a b : option Z) : bool :=
  match a, b with
  | Some x, Some y => x <=? y
  | Some _, None => true
  | None, Some _ => false
  | None, None => true
  end.

Fixpoint insert_by {A} (key : A -> option Z) (x : A) (l : list A) : list A :=
  match l with
  | [] => [x]
  | y :: l' =>
      if key_le (key y) (key x) then y :: insert_by key x l' else x :: y :: l'
  end.

Definition order_by_asc {A} (key : A -> option Z) (l : list A) : list A :=
  List.fold_left (fun acc x => insert_by key x acc) l [].

End Sql.

(** ** The session *)

(** The integers a statement is executed with, as the driver sends them:
    a value compared with an [Integer] column goes as a 32-bit integer, the
    numbers of OFFSET and LIMIT as 64-bit integers.  The driver refuses a
    number outside the range and the statement is not executed. *)
Inductive parameter :=
| Int4 (z : Z)
| Int8 (z : Z).

Definition in_int32 (z : Z) : bool := (-2147483648 <=? z) && (z <=? 2147483647).

Definition in_int64 (z : Z) : bool :=
  (-9223372036854775808 <=? z) && (z <=? 9223372036854775807).

Definition encodable (p : parameter) : bool :=
  match p with
  | Int4 z => in_int32 z
  | Int8 z => in_int64 z
  end.

(** A [select(Contact)] statement. *)
Record Select := mkSelect {
  whereclause : row -> bool;
  parameters : list parameter;
  order_by_clause : option (row -> option Z);
  offset_clause : option Z;
  limit_clause : option Z
}.

Definition select_Contact : Select :=
  mkSelect (fun _ => true) [] None None None.

Definition ebind {A B} (x : exn + A) (k : A -> exn + B) : exn + B :=
  match x with inl e => inl e | inr a => k a end.

Notation "'try' x <- c ; k" := (ebind c (fun x => k))
  (at level 10, x name, c at level 100, k at level 200,
   format "'[v' 'try'  x  <-  c ; '/' k ']'").

Module Stmt.

Definition where_ (stmt : Select) (p : row -> bool) : Select :=
  mkSelect (fun r => whereclause stmt r && p r) (parameters stmt)
    (order_by_clause stmt) (offset_clause stmt) (limit_clause stmt).

Definition filter := where_.

Definition bind_param (stmt : Select) (ps : list parameter) : Select :=
  mkSelect (whereclause stmt) (parameters stmt ++ ps)
    (order_by_clause stmt) (offset_clause stmt) (limit_clause stmt).

(** The parameter of a comparison of the column [c] with [v]. *)
Definition compared (c : Contact.column) (v : value) : list parameter :=
  match Contact.type_ c, v with
  | Contact.Integer, VInt z => [Int4 z]
  | _, _ => []
  end.

(** [stmt.filter_by(k=v)]: [k] names an attribute of the entity. *)
Definition filter_by (stmt : Select) (k : string) (v : value) : M Select :=
  do c <- from_option InvalidRequestError (Contact.getattr k);
  ret (bind_param (where_ stmt (fun r => bool_decide (Row.get c r = v)))
         (compared c v)).

Definition order_by (stmt : Select) (key : row -> option Z) : Select :=
  mkSelect (whereclause stmt) (parameters stmt) (Some key)
    (offset_clause stmt) (limit_clause stmt).

Definition offset (stmt : Select) (n : Z) : Select :=
  mkSelect (whereclause stmt) (parameters stmt ++ [Int8 n])
    (order_by_clause stmt) (Some n) (limit_clause stmt).

Definition limit (stmt : Select) (n : Z) : Select :=
  mkSelect (whereclause stmt) (parameters stmt ++ [Int8 n])
    (order_by_clause stmt) (offset_clause stmt) (Some n).

End Stmt.

(** [OFFSET n] and [LIMIT n] in the database, which refuses a negative [n];
    an [n] outside 64 bits does not come this far ([execute]). *)
Definition apply_offset (o : option Z) (rs : list row) : exn + list row :=
  match o with
  | None => inr rs
  | Some n => if n <? 0 then inl (DBAPIError NegativeLimit)
              else inr (drop (Z.to_nat n) rs)
  end.

Definition apply_limit (o : option Z) (rs : list row) : exn + list row :=
  match o with
  | None => inr rs
  | Some n => if n <? 0 then inl (DBAPIError NegativeLimit)
              else inr (take (Z.to_nat n) rs)
  end.

(** [await self.db.execute(stmt)]: the driver encodes the parameters, or
    raises for an integer out of range; the database then selects the rows. *)
Definition execute (stmt : Select) : M (list row) :=
  do db <- get_db;
  if forallb encodable (parameters stmt) then
    let rs := List.filter (whereclause stmt) (contacts db) in
    let rs := match order_by_clause stmt with
              | Some key => Sql.order_by_asc key rs
              | None => rs
              end in
    do rs <- lift (apply_offset (offset_clause stmt) rs);
    lift (apply_limit (limit_clause stmt) rs)
  else raise (DBAPIError OutOfRange).

(** [result.scalars().all()]. *)
Definition scalars_all (rs : list row) : list Instance := List.map load rs.

(** [result.scalar_one_or_none()]. *)
Definition scalar_one_or_none (rs : list row) : M (option Instance) :=
  match rs with
  | [] => ret None
  | [r] => ret (Some (load r))
  | _ :: _ :: _ => raise MultipleResultsFound
  end.

(** *** Writing: what [commit] sends for the object the function touched *)

Definition column_value (self : Instance) (c : Contact.column) : value :=
  default VNone (self !! Contact.name c).

Definition as_int (c : Contact.column) (v : value) : exn + option Z :=
  match v with
  | VNone => inr None
  | VInt z => inr (Some z)
  | _ => inl (DBAPIError (WrongType c))
  end.

Definition as_str (c : Contact.column) (v : value) : exn + option string :=
  match v with
  | VNone => inr None
  | VStr s => inr (Some s)
  | _ => inl (DBAPIError (WrongType c))
  end.

Definition as_date (c : Contact.column) (v : value) : exn + option date :=
  match v with
  | VNone => inr None
  | VDate d => inr (Some d)
  | _ => inl (DBAPIError (WrongType c))
  end.

(** [nullable=False]. *)
Definition required {A} (c : Contact.column) (o : option A) : exn + A :=
  match o with
  | Some a => inr a
  | None => inl (IntegrityError (NotNull c))
  end.

(** The row with identifier [i] that the attributes of [self] describe. *)
Definition to_row (i : Z) (self : Instance) : exn + row :=
  try fn <- ebind (as_str Contact.first_name (column_value self Contact.first_name))
              (required Contact.first_name);
  try ln <- ebind (as_str Contact.last_name (column_value self Contact.last_name))
              (required Contact.last_name);
  try em <- ebind (as_str Contact.email (column_value self Contact.email))
              (required Contact.email);
  try ph <- ebind (as_str Contact.phone (column_value self Contact.phone))
              (required Contact.phone);
  try bd <- ebind (as_date Contact.birthdate (column_value self Contact.birthdate))
              (required Contact.birthdate);
  try ad <- as_str Contact.aditional_data (column_value self Contact.aditional_data);
  inr (Row.mk i fn ln em ph bd ad).

(** The values a column takes: a string of at most [n] characters for
    [String(n)], a 32-bit integer for [Integer]. *)
Definition fits_value (c : Contact.column) (v : value) : bool :=
  match Contact.type_ c, v with
  | Contact.String n, VStr s => (String.length s <=? n)%nat
  | Contact.Integer, VInt z => in_int32 z
  | _, _ => true
  end.

Definition fits_column (c : Contact.column) (r : row) : bool :=
  fits_value c (Row.get c r).

(** The first column of a row whose value does not fit. *)
Definition too_long (r : row) : option Contact.column :=
  List.find (fun c => negb (fits_column c r)) Contact.columns.

(** The error for a value that does not fit the column [c]. *)
Definition refusal (c : Contact.column) : violation :=
  match Contact.type_ c with
  | Contact.Integer => OutOfRange
  | _ => TooLong c
  end.

(** The values of a statement are converted to the types of their columns
    before any constraint of the table is looked at: a value that does not
    fit is refused even when another one is a NULL the table does not take. *)
Definition check_values (self : Instance) : exn + unit :=
  match List.find (fun c => negb (fits_value c (column_value self c)))
          Contact.columns with
  | Some c => inl (DBAPIError (refusal c))
  | None => inr tt
  end.

(** The primary key and the [unique=True] columns against the other rows. *)
Definition clashes (c : Contact.column) (r : row) (others : list row) : bool :=
  (Contact.primary_key c || Contact.unique c)
  && existsb (fun o => bool_decide (Row.get c o = Row.get c r)) others.

Definition duplicate (r : row) (others : list row) : option Contact.column :=
  List.find (fun c => clashes c r others) Contact.columns.

Definition check_unique (r : row) (others : list row) : exn + unit :=
  match duplicate r others with
  | Some c => inl (IntegrityError (Unique c))
  | None => inr tt
  end.

(** The checks of the table on a row that is inserted: its identifier may
    come from the sequence. *)
Definition check_row (r : row) (others : list row) : exn + unit :=
  match too_long r with
  | Some c => inl (DBAPIError (refusal c))
  | None => check_unique r others
  end.

Definition has_id (i : Z) (r : row) : bool := Row.id r =? i.

(** [self.db.add(contact); await self.db.commit()]: one INSERT.  An object
    without [id] takes the next value of the sequence, which is used up even
    when the row is refused.  The object comes back with its identifier. *)
Definition add_commit (self : Instance) : M Instance :=
  do db <- get_db;
  do given <- lift (as_int Contact.id (column_value self Contact.id));
  let i := match given with Some z => z | None => contacts_id_seq db + 1 end in
  let seq := match given with Some _ => contacts_id_seq db | None => i end in
  do _ <- put_db (mkDB (contacts db) seq);
  do _ <- lift (check_values self);
  do r <- lift (to_row i self);
  do _ <- lift (check_row r (contacts db));
  do _ <- put_db (mkDB (contacts db ++ [r]) seq);
  ret (setattr self "id" (VInt i)).

(** No column of [self] differs from what was loaded. *)
Definition unchanged (persistent self : Instance) : bool :=
  forallb
    (fun c => bool_decide (column_value self c = column_value persistent c))
    Contact.columns.

(** [await self.db.commit()] after attributes of a loaded object were set:
    [persistent] is the object as it was loaded, [self] as it is now.  No
    UPDATE is sent when no column changed.  An UPDATE is refused for a value
    that does not fit its column, then for a NULL in a column that takes
    none, then for a value another row has in a unique column; a refused
    UPDATE changes nothing.  An accepted UPDATE writes a new version of the
    row, which the table lists after the rows it already had. *)
Definition commit_dirty (persistent self : Instance) : M unit :=
  do db <- get_db;
  do pk <- lift (ebind (as_int Contact.id (column_value persistent Contact.id))
                   (required Contact.id));
  if unchanged persistent self then ret tt
  else
    do _ <- lift (check_values self);
    do i <- lift (ebind (as_int Contact.id (column_value self Contact.id))
                    (required Contact.id));
    do r <- lift (to_row i self);
    let rest := List.filter (fun o => negb (has_id pk o)) (contacts db) in
    do _ <- lift (check_unique r rest);
    put_db (mkDB (rest ++ List.map (fun _ => r) (List.filter (has_id pk) (contacts db)))
              (contacts_id_seq db)).

(** [await self.db.delete(contact); await self.db.commit()]. *)
Definition delete_commit (self : Instance) : M unit :=
  do db <- get_db;
  do pk <- lift (ebind (as_int Contact.id (column_value self Contact.id))
                   (required Contact.id));
  put_db (mkDB (List.filter (fun o => negb (has_id pk o)) (contacts db))
            (contacts_id_seq db)).

(** [await self.db.refresh(contact)]: the mapped attributes are read again
    from the row of the object; its other attributes stay. *)
Definition refresh (self : Instance) : M Instance :=
  do db <- get_db;
  match column_value self Contact.id with
  | VInt pk =>
      match List.find (has_id pk) (contacts db) with
      | Some r => ret (load r ∪ self)
      | None => raise InvalidRequestError
      end
  | _ => raise InvalidRequestError
  end.

(** ** repository/contacts.py *)

(** Truth value of an [Optional[str]]: [None] and the empty string are false. *)
Definition truthy (o : option string) : bool :=
  match o with
  | Some s => negb (String.eqb s "")
  | None => false
  end.

Definition ilike_filter (stmt : Select) (k : string) (o : option string) : M Select :=
  if truthy o then
    do c <- Contact_attr k;
    ret (Stmt.filter stmt
           (fun r => Sql.ilike_value (Row.get c r) ("%" ++ default "" o ++ "%")))
  else ret stmt.

(** The WHERE clause of [get_upcoming_birthdays] on the day [b] of a
    birthday, [t] the day of today and [e] the day of the end date. *)
Definition birthday_window (t e : Z) (b : option Z) : bool :=
  Sql.between b t e || ((e <? t) && (Sql.ge b t || Sql.le b e)).

(** [for key, value in update_data.items(): setattr(contact, key, value)]. *)
Definition set_items (contact : Instance) (update_data : kwargs) : Instance :=
  List.fold_left (fun c kv => setattr c (fst kv) (snd kv)) update_data contact.

Module ContactRepository.

(** [offset] and [limit] are sent as 64-bit integers: [execute] raises when
    one of them is outside 64 bits, and for a negative one. *)
Definition get_contacts (limit offset : Z) : M (list Instance) :=
  let stmt := Stmt.limit (Stmt.offset select_Contact offset) limit in
  do contacts <- execute stmt;
  ret (scalars_all contacts).

(** [contact_id] is sent as a parameter of the [Integer] column: [execute]
    raises when it is outside 32 bits. *)
Definition get_contact_by_id (contact_id : Z) : M (option Instance) :=
  do stmt <- Stmt.filter_by select_Contact "id" (VInt contact_id);
  do contact <- execute stmt;
  scalar_one_or_none contact.

Definition create_contact (body : ContactSchema.t) : M Instance :=
  do contact <- lift (Contact_new (ContactSchema.model_dump body));
  do contact <- add_commit contact;
  do contact <- refresh contact;
  ret contact.

Definition update_contact (contact_id : Z) (body : ContactUpdateSchema.t)
  : M (option Instance) :=
  do contact <- get_contact_by_id contact_id;
  match contact with
  | Some persistent =>
      let update_data := ContactUpdateSchema.model_dump_exclude_unset body in
      let contact := set_items persistent update_data in
      do _ <- commit_dirty persistent contact;
      do contact <- refresh contact;
      ret (Some contact)
  | None => ret None
  end.

Definition remove_contact (contact_id : Z) : M (option Instance) :=
  do contact <- get_contact_by_id contact_id;
  match contact with
  | Some c =>
      do _ <- delete_commit c;
      ret contact
  | None => ret contact
  end.

Definition search_contacts (first_name last_name email : option string)
  : M (list Instance) :=
  let stmt := select_Contact in
  do stmt <- ilike_filter stmt "first_name" first_name;
  do stmt <- ilike_filter stmt "last_name" last_name;
  do stmt <- ilike_filter stmt "email" email;
  do contacts <- execute stmt;
  ret (scalars_all contacts).

(** [today] is the value of [date.today()]. *)
Definition get_upcoming_birthdays (today : date) (days : Z) : M (list Instance) :=
  do end_date <- from_option (OverflowError "date value out of range")
                   (add_days today days);
  do birthday <- Contact_attr "birthday";
  let bday := fun r => Sql.date_part_day (Row.get birthday r) in
  let query :=
    Stmt.order_by
      (Stmt.where_ select_Contact
         (fun r => birthday_window (day today) (day end_date) (bday r)))
      bday in
  do result <- execute query;
  ret (scalars_all result).

End ContactRepository.

(** ** services/contacts.py *)

Module ContactService.

(** Modelled from the spec: the file of the service layer, services/contacts.py,
    is not among the sources; section 4.2 describes it as pure delegation:
    each method forwards its arguments to the persistence layer and returns
    the result unchanged.  The names of the methods are those the routes
    call. *)
Definition get_contacts (limit offset : Z) : M (list Instance) :=
  ContactRepository.get_contacts limit offset.

(** Modelled from the spec: delegation to [get_contact_by_id] (section 4.2). *)
Definition get_contact (contact_id : Z) : M (option Instance) :=
  ContactRepository.get_contact_by_id contact_id.

(** Modelled from the spec: delegation to [create_contact] (section 4.2). *)
Definition create_contact (body : ContactSchema.t) : M Instance :=
  ContactRepository.create_contact body.

(** Modelled from the spec: delegation to [update_contact] (section 4.2). *)
Definition update_contact (contact_id : Z) (body : ContactUpdateSchema.t)
  : M (option Instance) :=
  ContactRepository.update_contact contact_id body.

(** Modelled from the spec: delegation to [remove_contact] (section 4.2). *)
Definition remove_contact (contact_id : Z) : M (option Instance) :=
  ContactRepository.remove_contact contact_id.

(** Modelled from the spec: delegation to [search_contacts] (section 4.2). *)
Definition search_contacts (first_name last_name email : option string)
  : M (list Instance) :=
  ContactRepository.search_contacts first_name last_name email.

(** Modelled from the spec: delegation to [get_upcoming_birthdays]
    (section 4.2). *)
Definition get_upcoming_birthdays (today : date) (days : Z) : M (list Instance) :=
  ContactRepository.get_upcoming_birthdays today days.

End ContactService.

(** ** routes/contacts.py *)

Inductive Body :=
| Empty                                   (* no content *)
| Detail (detail : string)                (* {"detail": ...} of an HTTPException *)
| One (c : ContactResponse.t)
| Many (l : list ContactResponse.t)
| ValidationErrors                        (* the body of a 422 *)
| InternalServerError.                    (* the body of an unhandled failure *)

Record Response := mkResponse {
  status_code : Z;
  body : Body
}.

(** A request handled on a database. *)
Definition Handler : Type := DB -> Response * DB.

Definition HTTP_200_OK : Z := 200.
Definition HTTP_201_CREATED : Z := 201.
Definition HTTP_204_NO_CONTENT : Z := 204.
Definition HTTP_404_NOT_FOUND : Z := 404.
Definition HTTP_422_UNPROCESSABLE : Z := 422.
Definition HTTP_500_INTERNAL_SERVER_ERROR : Z := 500.

(** [response_model=ContactResponse] and [response_model=list[ContactResponse]]:
    what the handler returned is validated against the model; [None] is a
    failed validation. *)
Definition response_one (obj : Instance) : option Body :=
  One <$> ContactResponse.model_validate obj.

Definition response_many (objs : list Instance) : option Body :=
  Many <$> mapM ContactResponse.model_validate objs.

(** A handler without response model that returns [None]. *)
Definition response_none (_ : unit) : option Body := Some Empty.

(** The framework around a handler: the value it returns is sent with the
    status of the route after validation against the response model; an
    [HTTPException] is sent with its own status and detail; a failed
    validation of the response and any other exception are a 500. *)
Definition respond {A} (status : Z) (model : A -> option Body) (h : M A) : Handler :=
  fun db =>
    match h db with
    | (inr a, db') =>
        match model a with
        | Some b => (mkResponse status b, db')
        | None => (mkResponse HTTP_500_INTERNAL_SERVER_ERROR InternalServerError, db')
        end
    | (inl (HTTPException st d), db') => (mkResponse st (Detail d), db')
    | (inl _, db') =>
        (mkResponse HTTP_500_INTERNAL_SERVER_ERROR InternalServerError, db')
    end.

(** A request refused by the validation of its parameters. *)
Definition unprocessable : Handler :=
  fun db => (mkResponse HTTP_422_UNPROCESSABLE ValidationErrors, db).

(** [Query(default, ge=…, le=…)] on an integer parameter: the default when
    the parameter is absent, the value when it is within the bounds. *)
Definition Query (default : Z) (ge le : option Z) (given : option Z) : option Z :=
  match given with
  | None => Some default
  | Some v =>
      if match ge with Some b => b <=? v | None => true end
         && match le with Some b => v <=? b | None => true end
      then Some v else None
  end.

(** [str(e)]; the text of an error of the database is the driver's and is
    abridged to the violated rule. *)
Definition str (e : exn) : string :=
  match e with
  | TypeError msg | AttributeError msg | OverflowError msg => msg
  | IntegrityError (NotNull c) => "null value in column " ++ Contact.name c
  | IntegrityError (Unique c) => "duplicate key value in column " ++ Contact.name c
  | IntegrityError _ => "integrity error"
  | DBAPIError (TooLong c) => "value too long for column " ++ Contact.name c
  | DBAPIError _ => "invalid input"
  | MultipleResultsFound => "Multiple rows were found when one or none was required"
  | InvalidRequestError => "Could not refresh instance"
  | HTTPException st d => d
  end.

(** [try: … except Exception as e: …]. *)
Definition try_except {A} (m : M A) (handler : exn -> M A) : M A :=
  fun db =>
    match m db with
    | (inl e, db') => handler e db'
    | (inr a, db') => (inr a, db')
    end.

Module routes.

Definition get_contacts (limit offset : option Z) : Handler :=
  match Query 10 (Some 10) (Some 100) limit, Query 0 (Some 0) None offset with
  | Some limit, Some offset =>
      respond HTTP_200_OK response_many
        (do contacts <- ContactService.get_contacts limit offset;
         ret contacts)
  | _, _ => unprocessable
  end.

Definition get_contact (contact_id : Z) : Handler :=
  respond HTTP_200_OK response_one
    (do contact <- ContactService.get_contact contact_id;
     match contact with
     | None => raise (HTTPException HTTP_404_NOT_FOUND "Contact not found")
     | Some c => ret c
     end).

Definition create_contact (body : ContactSchema.t) : Handler :=
  respond HTTP_201_CREATED response_one
    (try_except (ContactService.create_contact body)
       (fun e => raise (HTTPException 500 (str e)))).

Definition update_contact (contact_id : Z) (body : ContactUpdateSchema.t) : Handler :=
  respond HTTP_200_OK response_one
    (do contact <- ContactService.update_contact contact_id body;
     match contact with
     | None => raise (HTTPException HTTP_404_NOT_FOUND "Contact not found")
     | Some c => ret c
     end).

Definition delete_contact (contact_id : Z) : Handler :=
  respond HTTP_204_NO_CONTENT response_none
    (do _ <- ContactService.remove_contact contact_id;
     ret tt).

Definition search_contacts (first_name last_name email : option string) : Handler :=
  respond HTTP_200_OK response_many
    (do contacts <- ContactService.search_contacts first_name last_name email;
     match contacts with
     | [] => raise (HTTPException HTTP_404_NOT_FOUND "No contacts found")
     | _ :: _ => ret contacts
     end).

Definition get_upcoming_birthdays (today : date) (days : option Z) : Handler :=
  match Query 7 (Some 1) None days with
  | Some days =>
      respond HTTP_200_OK response_many
        (do birthdays <- ContactService.get_upcoming_birthdays today days;
         ret birthdays)
  | None => unprocessable
  end.

End routes.

(** The requests the router hands to the handlers, with their parameters
    parsed; [today] is the date on which a request for birthdays is served. *)
Inductive Request :=
| GET_contacts (limit offset : option Z)
| GET_contact (contact_id : Z)
| POST_contacts (body : ContactSchema.t)
| PUT_contact (contact_id : Z) (body : ContactUpdateSchema.t)
| DELETE_contact (contact_id : Z)
| GET_search (first_name last_name email : option string)
| GET_birthdays (today : date) (days : option Z).

Definition serve (q : Request) : Handler :=
  match q with
  | GET_contacts limit offset => routes.get_contacts limit offset
  | GET_contact contact_id => routes.get_contact contact_id
  | POST_contacts body => routes.create_contact body
  | PUT_contact contact_id body => routes.update_contact contact_id body
  | DELETE_contact contact_id => routes.delete_contact contact_id
  | GET_search first_name last_name email =>
      routes.search_contacts first_name last_name email
  | GET_birthdays today days => routes.get_upcoming_birthdays today days
  end.

(** Requests served one after the other, each on the database the one
    before left. *)
Fixpoint serve_all (qs : list Request) (db : DB) : list Response * DB :=
  match qs with
  | [] => ([], db)
  | q :: qs' =>
      let (resp, db') := serve q db in
      let (resps, db'') := serve_all qs' db' in
      (resp :: resps, db'')
  end.

(** ** Sample data: the contacts of section 8 of the specification *)

Definition alice : row :=
  Row.mk 1 "Alice" "Smith" "alice@x.com" "12345" (mkDate 1990 5 1) None.

Definition bob : row :=
  Row.mk 2 "Bob" "Smith" "bob@x.com" "54321" (mkDate 1990 5 10) None.

Definition two_contacts : DB := mkDB [alice; bob] 2.

Definition alice_body : ContactSchema.t :=
  ContactSchema.mk "Alice" "Smith" "alice@x.com" "12345" (mkDate 1990 5 1) None.

Definition carol_body : ContactSchema.t :=
  ContactSchema.mk "Carol" "Jones" "carol@x.com" "67890" (mkDate 1985 12 31) None.

(** Updates of Alice: a new first name; the email of Bob; a new birthday. *)
Definition rename_alice : ContactUpdateSchema.t :=
  ContactUpdateSchema.mk (Some "Alicia") None None None None None.

Definition take_bobs_email : ContactUpdateSchema.t :=
  ContactUpdateSchema.mk None None (Some (Some "bob@x.com")) None None None.

Definition move_birthday : ContactUpdateSchema.t :=
  ContactUpdateSchema.mk None None None None (Some (Some (mkDate 1991 6 2))) None.

Definition fifteen_contacts : DB :=
  mkDB
    (List.map
       (fun n : nat =>
          let d := String (ascii_of_nat (65 + n)) "" in
          Row.mk (Z.of_nat n + 1) ("Name" ++ d) ("Last" ++ d) (d ++ "@x.com")
            ("5550" ++ d) (mkDate 1990 1 (Z.of_nat n + 1)) None)
       (seq 0 15))
    15.

(** ** Notions the properties are stated with *)

(** The constraints of the table hold: the identifiers, the emails and the
    phones are pairwise distinct and every value fits its column. *)
Definition well_formed (db : DB) : Prop :=
  NoDup (List.map Row.id (contacts db))
  /\ NoDup (List.map Row.email (contacts db))
  /\ NoDup (List.map Row.phone (contacts db))
  /\ Forall (fun r => too_long r = None) (contacts db).

(** The rows other than the one with identifier [pk]. *)
Definition others (pk : Z) (db : DB) : list row :=
  List.filter (fun o => negb (has_id pk o)) (contacts db).

(** The table after the row with identifier [pk] became [r]: the other
    rows in their order, then [r]. *)
Definition replaced (pk : Z) (r : row) (db : DB) : DB :=
  mkDB (others pk db
        ++ List.map (fun _ => r) (List.filter (has_id pk) (contacts db)))
    (contacts_id_seq db).











(** The row an update of [r] asks the table for: the supplied fields that
    are columns of the table take their new values. *)
Definition patched (r : row) (body : ContactUpdateSchema.t) : exn + row :=
  match ContactUpdateSchema.email body with
  | Some None => inl (IntegrityError (NotNull Contact.email))
  | _ =>
      inr (Row.mk (Row.id r)
             (default (Row.first_name r) (ContactUpdateSchema.first_name body))
             (default (Row.last_name r) (ContactUpdateSchema.last_name body))
             (match ContactUpdateSchema.email body with
              | Some (Some e) => e
              | _ => Row.email r
              end)
             (default (Row.phone r) (ContactUpdateSchema.phone body))
             (Row.birthdate r) (Row.aditional_data r))
  end.

(** The object of [update_contact] after its loop. *)
Definition updated (r : row) (body : ContactUpdateSchema.t) : Instance :=
  set_items (load r) (ContactUpdateSchema.model_dump_exclude_unset body).

(** The fields of the update schema. *)
Definition update_fields : list string :=
  ["first_name"; "last_name"; "email"; "phone"; "birthday"; "extra_info"].


(** A filter up to the case of its letters. *)
Definition folded (o : option string) : option (list ascii) :=
  (fun f => Sql.lower (list_ascii_of_string f)) <$> o.

(** A filter that is absent or made of [%] only. *)
Definition only_percent (o : option string) : bool :=
  match o with
  | Some f => forallb (Ascii.eqb "%") (list_ascii_of_string f)
  | None => true
  end.


(** The update that sets nothing, and the one that sets only the email. *)
Definition nothing_set : ContactUpdateSchema.t :=
  ContactUpdateSchema.mk None None None None None None.

Definition email_only (s : string) : ContactUpdateSchema.t :=
  ContactUpdateSchema.mk None None (Some (Some s)) None None None.

(** The update that sets the phone and nothing else. *)
Definition phone_only (s : string) : ContactUpdateSchema.t :=
  ContactUpdateSchema.mk None None None (Some s) None None.

(** The exceptions of the database and of the session. *)
Definition from_database (e : exn) : Prop :=
  match e with
  | IntegrityError _ | DBAPIError _ | MultipleResultsFound | InvalidRequestError => True
  | _ => False
  end.

(** The condition one filter of [search_contacts] puts on a field. *)
Definition ilike_if (o : option string) (field : string) : bool :=
  if truthy o then Sql.ilike field ("%" ++ default "" o ++ "%") else true.

Arguments load : simpl never.
Arguments column_value : simpl never.
Arguments to_row : simpl never.
Arguments check_row : simpl never.
Arguments check_values : simpl never.
Arguments check_unique : simpl never.
Arguments unchanged : simpl never.
Arguments updated : simpl never.
Arguments refresh : simpl never.
Arguments set_items : simpl never.
Arguments patched : simpl never.

(** Unfolding of the monad of the session. *)
Ltac run :=
  repeat (unfold bind, ret, raise, lift, get_db, put_db, from_option, ebind; cbn).

(** ** Properties *)

(** *** The calendar *)

Example fromordinal_toordinal_leap :
  fromordinal (toordinal (mkDate 2024 2 29)) = mkDate 2024 2 29.
Proof. reflexivity. Qed.

Example add_days_month_end :
  add_days (mkDate 2024 1 25) 7 = Some (mkDate 2024 2 1).
Proof. reflexivity. Qed.

Example add_days_year_end :
  add_days (mkDate 2023 12 31) 1 = Some (mkDate 2024 1 1).
Proof. reflexivity. Qed.

(** *** Objects and rows *)

Lemma load_lookup (r : row) (c : Contact.column) :
  load r !! Contact.name c = Some (Row.get c r).
Proof. destruct c; reflexivity. Qed.

Lemma column_value_load (r : row) (c : Contact.column) :
  column_value (load r) c = Row.get c r.
Proof. unfold column_value. now rewrite load_lookup. Qed.

Lemma to_row_load (r : row) : to_row (Row.id r) (load r) = inr r.
Proof. destruct r as [i fn ln em ph bd [ad|]]; reflexivity. Qed.

(** A loaded object has no attribute [birthday]: the column is [birthdate]. *)
Lemma load_no_birthday (r : row) : load r !! "birthday" = None.
Proof. reflexivity. Qed.

Lemma getattr_name (c : Contact.column) : Contact.getattr (Contact.name c) = Some c.
Proof. destruct c; reflexivity. Qed.

(** The loop of [update_contact] leaves alone every attribute that is not a
    key of the dumped model. *)
Lemma set_items_other (kw : kwargs) (self : Instance) (k : string) :
  ~ In k (List.map fst kw) -> set_items self kw !! k = self !! k.
Proof.
  revert self. induction kw as [|[k' v] kw IH]; intros self Hk; [reflexivity|].
  simpl in Hk. unfold set_items in *. simpl.
  rewrite IH by tauto. unfold setattr.
  apply lookup_insert_ne. intros ->. tauto.
Qed.

Lemma item_keys {A} (k : string) (f : A -> value) (o : option A) (k' : string) :
  In k' (List.map fst (ContactUpdateSchema.item k f o)) -> k' = k.
Proof. destruct o; simpl; [intros [H|[]]; now symmetry | intros []]. Qed.

(** [model_dump(exclude_unset=True)] has no key but the fields of the schema. *)
Lemma model_dump_keys (body : ContactUpdateSchema.t) (k : string) :
  In k (List.map fst (ContactUpdateSchema.model_dump_exclude_unset body)) ->
  In k update_fields.
Proof.
  unfold ContactUpdateSchema.model_dump_exclude_unset, update_fields.
  rewrite !List.map_app, !List.in_app_iff.
  intros H.
  repeat (destruct H as [H|H]; [apply item_keys in H as ->; simpl; tauto|]).
  apply item_keys in H as ->; simpl; tauto.
Qed.

(** *** Reading the table *)

Lemma filter_by_id_eq (cid : Z) (rs : list row) :
  List.filter (fun r => true && bool_decide (Row.get Contact.id r = VInt cid)) rs
  = List.filter (has_id cid) rs.
Proof.
  apply List.filter_ext. intros r. cbn. unfold has_id.
  destruct (Z.eqb_spec (Row.id r) cid) as [->|Hne].
  - now rewrite bool_decide_eq_true_2.
  - apply bool_decide_eq_false_2. intros [= H]. contradiction.
Qed.

Lemma in_int32_spec (z : Z) :
  in_int32 z = true <-> -2147483648 <= z <= 2147483647.
Proof. unfold in_int32. rewrite andb_true_iff, !Z.leb_le. tauto. Qed.

Lemma in_int64_spec (z : Z) :
  in_int64 z = true <-> -9223372036854775808 <= z <= 9223372036854775807.
Proof. unfold in_int64. rewrite andb_true_iff, !Z.leb_le. tauto. Qed.

(** The query by identifier: the driver refuses an identifier outside 32
    bits; otherwise the rows with the identifier are selected. *)
Lemma get_contact_by_id_cases (cid : Z) (db : DB) :
  ContactRepository.get_contact_by_id cid db
  = if in_int32 cid
    then scalar_one_or_none (List.filter (has_id cid) (contacts db)) db
    else (inl (DBAPIError OutOfRange), db).
Proof.
  unfold ContactRepository.get_contact_by_id, Stmt.filter_by, execute. run.
  destruct (in_int32 cid); cbn; [|reflexivity].
  now rewrite <- filter_by_id_eq.
Qed.

Lemma get_contact_by_id_eq (cid : Z) (db : DB) :
  -2147483648 <= cid <= 2147483647 ->
  ContactRepository.get_contact_by_id cid db
  = scalar_one_or_none (List.filter (has_id cid) (contacts db)) db.
Proof.
  intros H. rewrite get_contact_by_id_cases.
  now replace (in_int32 cid) with true by (symmetry; now apply in_int32_spec).
Qed.

Lemma get_contact_by_id_out_of_range (cid : Z) (db : DB) :
  ~ -2147483648 <= cid <= 2147483647 ->
  ContactRepository.get_contact_by_id cid db = (inl (DBAPIError OutOfRange), db).
Proof.
  intros H. rewrite get_contact_by_id_cases.
  destruct (in_int32 cid) eqn:E; [|reflexivity].
  now apply in_int32_spec in E.
Qed.

Lemma has_id_true (cid : Z) (r : row) : has_id cid r = true <-> Row.id r = cid.
Proof. unfold has_id. apply Z.eqb_eq. Qed.

Lemma filter_has_id_absent (cid : Z) (rs : list row) :
  ~ In cid (List.map Row.id rs) -> List.filter (has_id cid) rs = [].
Proof.
  induction rs as [|r rs IH]; simpl; intros H; [reflexivity|].
  destruct (has_id cid r) eqn:E.
  - apply has_id_true in E. tauto.
  - apply IH. tauto.
Qed.

(** With distinct identifiers a query by identifier finds at most one row. *)
Lemma filter_has_id_NoDup (cid : Z) (rs : list row) :
  NoDup (List.map Row.id rs) ->
  List.filter (has_id cid) rs = []
  \/ exists r, List.filter (has_id cid) rs = [r] /\ In r rs /\ Row.id r = cid.
Proof.
  induction rs as [|r rs IH]; simpl; intros Hnd; [now left|].
  inversion Hnd as [|i l Hnotin Hnd']; subst.
  destruct (has_id cid r) eqn:E.
  - right. exists r. apply has_id_true in E. subst cid.
    rewrite filter_has_id_absent by (now rewrite <- list_elem_of_In).
    auto.
  - destruct (IH Hnd') as [H|(r' & H & Hin & Hid)]; [now left|].
    right. exists r'. auto.
Qed.

Lemma filter_has_id_member (r : row) (rs : list row) :
  NoDup (List.map Row.id rs) -> In r rs ->
  List.filter (has_id (Row.id r)) rs = [r].
Proof.
  induction rs as [|x rs IH]; simpl; intros Hnd Hin; [contradiction|].
  inversion Hnd as [|i l Hnotin Hnd']; subst.
  rewrite list_elem_of_In in Hnotin.
  destruct Hin as [->|Hin].
  - replace (has_id (Row.id r) r) with true by (symmetry; now apply has_id_true).
    now rewrite filter_has_id_absent.
  - destruct (has_id (Row.id r) x) eqn:E.
    + apply has_id_true in E. exfalso. apply Hnotin. rewrite E.
      now apply List.in_map.
    + now apply IH.
Qed.

Lemma filter_others_has_id (cid : Z) (rs : list row) :
  List.filter (has_id cid) (List.filter (fun o => negb (has_id cid o)) rs) = [].
Proof.
  induction rs as [|r rs IH]; simpl; [reflexivity|].
  destruct (has_id cid r) eqn:E; simpl; [assumption|]. now rewrite E.
Qed.

Lemma filter_others_absent (cid : Z) (rs : list row) :
  ~ In cid (List.map Row.id rs) ->
  List.filter (fun o => negb (has_id cid o)) rs = rs.
Proof.
  induction rs as [|r rs IH]; simpl; intros H; [reflexivity|].
  destruct (has_id cid r) eqn:E; simpl.
  - apply has_id_true in E. tauto.
  - f_equal. apply IH. tauto.
Qed.

(** *** Deleting *)

Lemma find_has_id (cid : Z) (rs : list row) :
  List.find (has_id cid) rs = List.head (List.filter (has_id cid) rs).
Proof.
  induction rs as [|x rs IH]; simpl; [reflexivity|].
  destruct (has_id cid x); [reflexivity | assumption].
Qed.

Lemma filter_has_id_nil (cid : Z) (rs : list row) :
  List.filter (has_id cid) rs = [] -> ~ In cid (List.map Row.id rs).
Proof.
  intros H Hin. apply List.in_map_iff in Hin as (r & Hr & Hin).
  assert (Hf : In r (List.filter (has_id cid) rs))
    by (apply List.filter_In; split; [assumption | now apply has_id_true]).
  now rewrite H in Hf.
Qed.

Lemma remove_contact_eq (cid : Z) (db : DB) :
  NoDup (List.map Row.id (contacts db)) ->
  -2147483648 <= cid <= 2147483647 ->
  ContactRepository.remove_contact cid db
  = (inr (load <$> List.find (has_id cid) (contacts db)),
     mkDB (others cid db) (contacts_id_seq db)).
Proof.
  intros Hnd Hcid. unfold ContactRepository.remove_contact, bind.
  rewrite get_contact_by_id_eq, find_has_id by assumption. unfold others.
  destruct (filter_has_id_NoDup cid _ Hnd) as [H|(r & H & Hin & Hid)].
  - rewrite H. cbn.
    rewrite filter_others_absent by now apply filter_has_id_nil.
    now destruct db.
  - rewrite H. cbn. unfold delete_commit. run.
    rewrite column_value_load. cbn. now rewrite Hid.
Qed.

Lemma two_contacts_well_formed : well_formed two_contacts.
Proof.
  unfold well_formed, two_contacts; cbn.
  repeat split; repeat constructor; cbn; rewrite ?list_elem_of_In; cbn;
    intuition discriminate.
Qed.

Lemma delete_contact_eq (cid : Z) (db : DB) :
  NoDup (List.map Row.id (contacts db)) ->
  -2147483648 <= cid <= 2147483647 ->
  routes.delete_contact cid db
  = (mkResponse HTTP_204_NO_CONTENT Empty, mkDB (others cid db) (contacts_id_seq db)).
Proof.
  intros Hnd Hcid.
  unfold routes.delete_contact, respond, bind, ContactService.remove_contact.
  now rewrite remove_contact_eq.
Qed.

Lemma get_contact_absent (cid : Z) (db : DB) :
  -2147483648 <= cid <= 2147483647 ->
  List.filter (has_id cid) (contacts db) = [] ->
  routes.get_contact cid db
  = (mkResponse HTTP_404_NOT_FOUND (Detail "Contact not found"), db).
Proof.
  intros Hcid H.
  unfold routes.get_contact, respond, bind, ContactService.get_contact.
  rewrite get_contact_by_id_eq, H by assumption. reflexivity.
Qed.

(** The identifiers of a table are 32-bit integers. *)
Lemma stored_in_int32 (db : DB) (r : row) :
  well_formed db -> In r (contacts db) ->
  -2147483648 <= Row.id r <= 2147483647.
Proof.
  intros (_ & _ & _ & Hfit) Hin.
  rewrite List.Forall_forall in Hfit. specialize (Hfit r Hin).
  unfold too_long in Hfit.
  assert (H := List.find_none _ _ Hfit Contact.id).
  cbn in H. specialize (H (or_introl eq_refl)).
  apply negb_false_iff in H. now apply in_int32_spec.
Qed.

(** C6: on a table whose identifiers are distinct, deleting an identifier
    that is a 32-bit integer, as the identifiers of the table are, and then
    asking for it gives not-found, in the repository ([None]) and at the
    routes (404); the delete route answers 204 with an empty body for every
    such identifier, and when no contact has the identifier it leaves the
    table as it was. *)
Theorem delete_then_get_not_found (db : DB) (cid : Z) :
  well_formed db ->
  -2147483648 <= cid <= 2147483647 ->
  ContactRepository.get_contact_by_id cid
    (snd (ContactRepository.remove_contact cid db))
  = (inr None, snd (ContactRepository.remove_contact cid db))
  /\ fst (routes.delete_contact cid db) = mkResponse 204 Empty
  /\ routes.get_contact cid (snd (routes.delete_contact cid db))
     = (mkResponse 404 (Detail "Contact not found"),
        snd (routes.delete_contact cid db))
  /\ (~ In cid (List.map Row.id (contacts db)) ->
      routes.delete_contact cid db = (mkResponse 204 Empty, db)).
Proof.
  intros (Hnd & _) Hcid.
  rewrite delete_contact_eq, remove_contact_eq by assumption. cbn [fst snd].
  repeat split.
  - rewrite get_contact_by_id_eq by assumption. cbn [contacts]. unfold others.
    now rewrite filter_others_has_id.
  - apply get_contact_absent; [assumption|]. cbn [contacts]. unfold others.
    apply filter_others_has_id.
  - intros Habs. unfold others.
    rewrite filter_others_absent by assumption. now destruct db.
Qed.

Lemma delete_then_get_not_found_witness :
  well_formed two_contacts
  /\ routes.delete_contact 7 two_contacts = (mkResponse 204 Empty, two_contacts)
  /\ routes.get_contact 1 (snd (routes.delete_contact 1 two_contacts))
     = (mkResponse 404 (Detail "Contact not found"),
        snd (routes.delete_contact 1 two_contacts)).
Proof.
  split; [exact two_contacts_well_formed|]. split.
  - apply (delete_then_get_not_found two_contacts 7 two_contacts_well_formed);
      [lia|].
    cbn. intros [H|[H|[]]]; discriminate H.
  - apply (delete_then_get_not_found two_contacts 1 two_contacts_well_formed).
    lia.
Defined.

(** C6, the identifier the claim does not hold for: 2^31 is an integer the
    routes take, but not one the driver sends for the [Integer] column; the
    query of [remove_contact] raises, DELETE answers 500 and not 204, and GET
    answers 500 and not 404. *)
Lemma delete_contact_out_of_range :
  ContactRepository.remove_contact 2147483648 two_contacts
  = (inl (DBAPIError OutOfRange), two_contacts)
  /\ routes.delete_contact 2147483648 two_contacts
     = (mkResponse 500 InternalServerError, two_contacts)
  /\ routes.get_contact 2147483648 two_contacts
     = (mkResponse 500 InternalServerError, two_contacts).
Proof. repeat split; reflexivity. Qed.

(** *** Listing *)

Lemma filter_all {A} (l : list A) : List.filter (fun _ => true) l = l.
Proof. induction l as [|x l IH]; simpl; [reflexivity | now rewrite IH]. Qed.

Lemma get_contacts_eq (limit offset : Z) (db : DB) :
  0 <= limit <= 9223372036854775807 -> 0 <= offset <= 9223372036854775807 ->
  ContactRepository.get_contacts limit offset db
  = (inr (scalars_all
            (take (Z.to_nat limit) (drop (Z.to_nat offset) (contacts db)))),
     db).
Proof.
  intros Hl Ho. unfold ContactRepository.get_contacts, execute. run.
  replace (in_int64 offset) with true by (symmetry; apply in_int64_spec; lia).
  replace (in_int64 limit) with true by (symmetry; apply in_int64_spec; lia).
  cbn. rewrite filter_all.
  destruct (Z.ltb_spec offset 0); [lia|]. cbn.
  destruct (Z.ltb_spec limit 0); [lia|]. reflexivity.
Qed.

(** The driver refuses an offset or a limit outside 64 bits. *)
Lemma get_contacts_out_of_range (limit offset : Z) (db : DB) :
  9223372036854775807 < offset \/ 9223372036854775807 < limit ->
  ContactRepository.get_contacts limit offset db
  = (inl (DBAPIError OutOfRange), db).
Proof.
  intros H. unfold ContactRepository.get_contacts, execute. run.
  destruct (in_int64 offset) eqn:Eo; cbn; [|reflexivity].
  destruct (in_int64 limit) eqn:El; cbn; [|reflexivity].
  apply in_int64_spec in Eo, El. lia.
Qed.

Lemma Query_in_range (default : Z) (lo hi v : Z) :
  lo <= v <= hi -> Query default (Some lo) (Some hi) (Some v) = Some v.
Proof.
  intros [H1 H2]. unfold Query.
  destruct (Z.leb_spec lo v); [|lia]. destruct (Z.leb_spec v hi); [|lia].
  reflexivity.
Qed.

(** C7: of fifteen stored contacts [list(limit=10, offset=0)] returns ten
    and [list(limit=10, offset=10)] the five after them; on every table, for
    a limit and an offset from 0 to 2^63 - 1, the repository returns the
    contacts in storage order after skipping [offset], at most [limit] of
    them; the route refuses a limit outside 10..100 and a negative offset
    with a 422 before the table is read, and passes a value within the bounds
    on (10 and 0 when the parameters are absent). *)
Theorem get_contacts_pagination (db : DB) :
  length (contacts db) = 15%nat ->
  (exists page1 page2,
      ContactRepository.get_contacts 10 0 db = (inr page1, db)
      /\ ContactRepository.get_contacts 10 10 db = (inr page2, db)
      /\ length page1 = 10%nat /\ length page2 = 5%nat
      /\ (page1 ++ page2)%list = scalars_all (contacts db))
  /\ (forall (d : DB) (limit offset : Z),
        0 <= limit <= 9223372036854775807 ->
        0 <= offset <= 9223372036854775807 ->
        exists page,
          ContactRepository.get_contacts limit offset d = (inr page, d)
          /\ page = scalars_all
                      (take (Z.to_nat limit) (drop (Z.to_nat offset) (contacts d)))
          /\ Z.of_nat (length page) <= limit)
  /\ (forall (d : DB) (limit offset : Z),
        limit < 10 \/ 100 < limit \/ offset < 0 ->
        routes.get_contacts (Some limit) (Some offset) d
        = (mkResponse 422 ValidationErrors, d))
  /\ (forall (d : DB) (limit offset : Z),
        10 <= limit <= 100 -> 0 <= offset ->
        routes.get_contacts (Some limit) (Some offset) d
        = respond 200 response_many
            (ContactRepository.get_contacts limit offset) d)
  /\ (forall d : DB,
        routes.get_contacts None None d
        = respond 200 response_many (ContactRepository.get_contacts 10 0) d).
Proof.
  intros Hlen. split; [|split; [|split; [|split]]].
  - exists (scalars_all (take 10 (contacts db))),
      (scalars_all (take 10 (drop 10 (contacts db)))).
    rewrite !get_contacts_eq by lia. cbn [drop]. unfold scalars_all.
    rewrite !length_map, !length_take, length_drop, Hlen.
    repeat split; try reflexivity.
    rewrite <- List.map_app. f_equal.
    rewrite (take_ge (drop 10 (contacts db))) by (rewrite length_drop; lia).
    apply take_drop.
  - intros d limit offset Hl Ho. eexists. rewrite get_contacts_eq by assumption.
    repeat split. unfold scalars_all. rewrite length_map, length_take. lia.
  - intros d limit offset H. unfold routes.get_contacts, Query.
    destruct (Z.leb_spec 10 limit), (Z.leb_spec limit 100),
      (Z.leb_spec 0 offset); cbn; try reflexivity; lia.
  - intros d limit offset Hl Ho. unfold routes.get_contacts.
    rewrite Query_in_range by assumption.
    unfold Query. destruct (Z.leb_spec 0 offset); [|lia]. cbn.
    unfold respond, bind, ret, ContactService.get_contacts.
    destruct (ContactRepository.get_contacts limit offset d) as [[e|a] d'];
      reflexivity.
  - intros d. unfold routes.get_contacts. cbn.
    unfold respond, bind, ret, ContactService.get_contacts.
    destruct (ContactRepository.get_contacts 10 0 d) as [[e|a] d']; reflexivity.
Qed.

Lemma get_contacts_pagination_witness :
  length (contacts fifteen_contacts) = 15%nat
  /\ exists page1 page2,
      ContactRepository.get_contacts 10 0 fifteen_contacts
      = (inr page1, fifteen_contacts)
      /\ ContactRepository.get_contacts 10 10 fifteen_contacts
         = (inr page2, fifteen_contacts)
      /\ length page1 = 10%nat /\ length page2 = 5%nat
      /\ (page1 ++ page2)%list = scalars_all (contacts fifteen_contacts).
Proof.
  split; [reflexivity|].
  apply (get_contacts_pagination fifteen_contacts). reflexivity.
Defined.

(** C7, the offset the claim does not hold for: the route takes every
    offset from 0 on, but the driver sends the offset as a 64-bit integer;
    with the offset 2^63 the query raises, no page is returned and GET
    answers 500. *)
Lemma get_contacts_offset_out_of_range :
  ContactRepository.get_contacts 10 9223372036854775808 fifteen_contacts
  = (inl (DBAPIError OutOfRange), fifteen_contacts)
  /\ routes.get_contacts (Some 10) (Some 9223372036854775808) fifteen_contacts
     = (mkResponse 500 InternalServerError, fifteen_contacts).
Proof. split; reflexivity. Qed.

(** *** Searching *)

Lemma Contact_attr_name (c : Contact.column) (db : DB) :
  Contact_attr (Contact.name c) db = (inr c, db).
Proof. unfold Contact_attr. now rewrite getattr_name. Qed.

Lemma ilike_filter_eq (stmt : Select) (c : Contact.column) (o : option string)
    (db : DB) :
  Contact.type_ c <> Contact.Integer -> Contact.type_ c <> Contact.Date ->
  Contact.nullable c = false ->
  exists stmt',
    ilike_filter stmt (Contact.name c) o db = (inr stmt', db)
    /\ parameters stmt' = parameters stmt
    /\ offset_clause stmt' = offset_clause stmt
    /\ limit_clause stmt' = limit_clause stmt
    /\ order_by_clause stmt' = order_by_clause stmt
    /\ forall r, whereclause stmt' r
                 = whereclause stmt r
                   && match Row.get c r with
                      | VStr field => ilike_if o field
                      | _ => true
                      end.
Proof.
  intros Hi Hd Hn. unfold ilike_filter, ilike_if.
  destruct (truthy o).
  - unfold bind. rewrite Contact_attr_name. eexists. split; [reflexivity|].
    cbn. repeat split. intros r. f_equal.
    destruct c; cbn in *; try reflexivity; congruence.
  - exists stmt. repeat split. intros r.
    destruct (Row.get c r); now rewrite andb_true_r.
Qed.

(** What [search_contacts] returns, in terms of the conditions of its three
    filters. *)
Lemma search_contacts_eq (first_name last_name email : option string) (db : DB) :
  ContactRepository.search_contacts first_name last_name email db
  = (inr (scalars_all
            (List.filter
               (fun r => ilike_if first_name (Row.first_name r)
                         && ilike_if last_name (Row.last_name r)
                         && ilike_if email (Row.email r))
               (contacts db))),
     db).
Proof.
  unfold ContactRepository.search_contacts.
  destruct (ilike_filter_eq select_Contact Contact.first_name first_name db)
    as (s1 & E1 & P1 & O1 & L1 & B1 & W1); try (cbn; congruence).
  destruct (ilike_filter_eq s1 Contact.last_name last_name db)
    as (s2 & E2 & P2 & O2 & L2 & B2 & W2); try (cbn; congruence).
  destruct (ilike_filter_eq s2 Contact.email email db)
    as (s3 & E3 & P3 & O3 & L3 & B3 & W3); try (cbn; congruence).
  cbn [Contact.name] in *.
  unfold bind at 1. rewrite E1. unfold bind at 1. rewrite E2.
  unfold bind at 1. rewrite E3.
  unfold execute. run. rewrite P3, P2, P1, B3, B2, B1, O3, O2, O1, L3, L2, L1. cbn.
  do 3 f_equal. apply List.filter_ext. intros r.
  rewrite W3, W2, W1. cbn. reflexivity.
Qed.

(** C10: a filter given as the empty string is not applied, so the search
    with three empty strings returns what the search without filters returns:
    every contact. *)
Theorem search_empty_strings_all (db : DB) :
  ContactRepository.search_contacts (Some "") (Some "") (Some "") db
  = ContactRepository.search_contacts None None None db
  /\ ContactRepository.search_contacts None None None db
     = (inr (scalars_all (contacts db)), db).
Proof.
  rewrite !search_contacts_eq. cbn. now rewrite filter_all.
Qed.

(** *** LIKE patterns without wildcards *)

Lemma like_percent (p s : list ascii) :
  Sql.like ("%"%char :: p) s
  = Sql.like p s
    || match s with [] => false | _ :: s' => Sql.like ("%"%char :: p) s' end.
Proof. destruct s; reflexivity. Qed.

Lemma like_only_percent (s : list ascii) : Sql.like ["%"%char] s = true.
Proof.
  induction s as [|x s IH]; [reflexivity|].
  rewrite like_percent, IH. apply orb_true_r.
Qed.






Lemma list_ascii_of_string_app (a b : string) :
  list_ascii_of_string (a ++ b)
  = (list_ascii_of_string a ++ list_ascii_of_string b)%list.
Proof. induction a as [|c a IH]; simpl; [reflexivity | now f_equal]. Qed.










(** The example of section 8 of the specification. *)
Example search_smith_and_ali :
  ContactRepository.search_contacts None (Some "smith") None two_contacts
  = (inr (scalars_all [alice; bob]), two_contacts)
  /\ ContactRepository.search_contacts (Some "ali") None None two_contacts
     = (inr (scalars_all [alice]), two_contacts).
Proof. split; reflexivity. Qed.

(** *** The response model *)

(** An object loaded from the table does not validate as a [ContactResponse]:
    the model requires [birthday], the class maps [birthdate]. *)
Lemma model_validate_load (r : row) : ContactResponse.model_validate (load r) = None.
Proof. destruct r as [i fn ln em ph bd ad]. reflexivity. Qed.

Lemma response_many_loaded (r : row) (rs : list row) :
  response_many (scalars_all (r :: rs)) = None.
Proof.
  unfold response_many, scalars_all. cbn [List.map mapM].
  now rewrite model_validate_load.
Qed.

(** The search route answers 404 when nothing matches and fails with a 500
    when something does. *)
Lemma search_route_eq (first_name last_name email : option string) (db : DB) :
  routes.search_contacts first_name last_name email db
  = (match List.filter
             (fun r => ilike_if first_name (Row.first_name r)
                       && ilike_if last_name (Row.last_name r)
                       && ilike_if email (Row.email r))
             (contacts db)
     with
     | [] => mkResponse 404 (Detail "No contacts found")
     | _ :: _ => mkResponse 500 InternalServerError
     end, db).
Proof.
  unfold routes.search_contacts, respond, bind, ContactService.search_contacts.
  rewrite search_contacts_eq.
  destruct (List.filter _ (contacts db)) as [|r rs]; [reflexivity|].
  change (scalars_all (r :: rs)) with (load r :: scalars_all rs).
  cbn [ret]. change (load r :: scalars_all rs) with (scalars_all (r :: rs)).
  now rewrite response_many_loaded.
Qed.

(** C8 at a failing input: a search that matches Alice is answered with a
    500, not with 200 and the list; a search that matches nothing is answered
    with 404. *)
Theorem search_route_match_is_500 :
  routes.search_contacts (Some "ali") None None two_contacts
  = (mkResponse 500 InternalServerError, two_contacts)
  /\ routes.search_contacts (Some "zed") None None two_contacts
     = (mkResponse 404 (Detail "No contacts found"), two_contacts).
Proof. split; reflexivity. Qed.

(** *** Creating *)

(** The constructor of [Contact] refuses the keyword [birthday] of the dumped
    schema (the class maps [birthdate]), so [create_contact] raises before the
    session is used. *)
Lemma create_contact_raises (body : ContactSchema.t) (db : DB) :
  ContactRepository.create_contact body db
  = (inl (TypeError "'birthday' is an invalid keyword argument for Contact"), db).
Proof. reflexivity. Qed.

Lemma create_route_500 (body : ContactSchema.t) (db : DB) :
  routes.create_contact body db
  = (mkResponse 500
       (Detail "'birthday' is an invalid keyword argument for Contact"), db).
Proof. reflexivity. Qed.

(** The INSERT itself refuses a duplicate: an object whose email or phone is
    that of a stored row is not added by [add] and [commit]. *)
Lemma duplicate_found (c : Contact.column) (r : row) (rows : list row) :
  clashes c r rows = true -> duplicate r rows <> None.
Proof.
  unfold duplicate. intros H Hnone.
  assert (Hin : In c Contact.columns) by (destruct c; cbn; tauto).
  apply (List.find_none _ _ Hnone) in Hin. congruence.
Qed.

(** A row that [to_row] builds holds the values of the attributes. *)
Lemma to_row_get (i : Z) (self : Instance) (r : row) (c : Contact.column) :
  to_row i self = inr r -> c <> Contact.id -> Row.get c r = column_value self c.
Proof.
  unfold to_row, ebind, as_str, as_date, required. intros H Hc.
  repeat match type of H with
         | context [match column_value ?s ?d with _ => _ end] =>
             destruct (column_value s d) eqn:?; try discriminate H
         end;
    injection H as <-; destruct c; cbn; congruence.
Qed.

Lemma add_commit_refuses_duplicate (self : Instance) (db : DB) (r : row) :
  In r (contacts db) ->
  column_value self Contact.email = VStr (Row.email r)
  \/ column_value self Contact.phone = VStr (Row.phone r) ->
  exists e db', add_commit self db = (inl e, db')
                /\ contacts db' = contacts db.
Proof.
  intros Hin Hdup. unfold add_commit. run.
  destruct (as_int Contact.id (column_value self Contact.id)) as [e|given];
    cbn; [now eauto|].
  set (i := match given with Some z => z | None => contacts_id_seq db + 1 end).
  destruct (check_values self) as [e|[]]; cbn; [now eauto|].
  destruct (to_row i self) as [e|r0] eqn:Hrow; cbn; [now eauto|].
  assert (Hclash : clashes Contact.email r0 (contacts db) = true
                   \/ clashes Contact.phone r0 (contacts db) = true).
  { unfold clashes. cbn [Contact.primary_key Contact.unique orb andb].
    destruct Hdup as [H|H]; [left|right];
      apply existsb_exists; exists r; (split; [assumption|]);
      apply bool_decide_eq_true_2;
      rewrite (to_row_get _ _ _ _ Hrow) by discriminate; now rewrite H. }
  unfold check_row, check_unique. destruct (too_long r0); [cbn; now eauto|].
  destruct (duplicate r0 (contacts db)) eqn:Hd; [cbn; now eauto|].
  exfalso. destruct Hclash as [H|H]; now apply duplicate_found in H.
Qed.

(** C2 at a failing input: the request for Carol is within the bounds of
    the schema; creating her raises [TypeError] and stores nothing, the route
    answers 500, and no contact with her email exists afterwards. *)
Theorem create_contact_carol_raises :
  ContactSchema.field_bounds carol_body = true
  /\ ContactRepository.create_contact carol_body two_contacts
  = (inl (TypeError "'birthday' is an invalid keyword argument for Contact"),
     two_contacts)
  /\ routes.create_contact carol_body two_contacts
     = (mkResponse 500
          (Detail "'birthday' is an invalid keyword argument for Contact"),
        two_contacts)
  /\ ContactRepository.search_contacts None None (Some "carol@x.com")
       (snd (ContactRepository.create_contact carol_body two_contacts))
     = (inr [], two_contacts).
Proof. repeat split; reflexivity. Qed.

(** C1: a create request whose email or phone is that of a stored contact
    fails, and the table is left as it was: the same rows, the same number
    of them; the route answers 500.  The INSERT that [add] and [commit] send
    refuses such a contact as well: no object that carries the email and the
    phone of the request adds a row. *)
Theorem create_duplicate_fails (db : DB) (body : ContactSchema.t) :
  (exists r, In r (contacts db)
             /\ (Row.email r = ContactSchema.email body
                 \/ Row.phone r = ContactSchema.phone body)) ->
  (exists e,
      ContactRepository.create_contact body db = (inl e, db)
      /\ length (contacts (snd (ContactRepository.create_contact body db)))
         = length (contacts db)
      /\ status_code (fst (routes.create_contact body db)) = 500
      /\ snd (routes.create_contact body db) = db)
  /\ (forall contact : Instance,
        column_value contact Contact.email = VStr (ContactSchema.email body) ->
        column_value contact Contact.phone = VStr (ContactSchema.phone body) ->
        exists e db',
          add_commit contact db = (inl e, db')
          /\ contacts db' = contacts db).
Proof.
  intros (r & Hin & Hdup). split.
  - eexists. rewrite create_contact_raises, create_route_500. repeat split.
  - intros contact Hemail Hphone.
    apply (add_commit_refuses_duplicate contact db r Hin).
    destruct Hdup as [->| ->]; auto.
Qed.

Lemma create_duplicate_fails_witness :
  exists e,
    ContactRepository.create_contact alice_body two_contacts = (inl e, two_contacts)
    /\ length (contacts (snd (ContactRepository.create_contact alice_body two_contacts)))
       = length (contacts two_contacts)
    /\ status_code (fst (routes.create_contact alice_body two_contacts)) = 500
    /\ snd (routes.create_contact alice_body two_contacts) = two_contacts.
Proof.
  apply (create_duplicate_fails two_contacts alice_body).
  exists alice. split; [now left | now left].
Defined.

(** *** Upcoming birthdays *)

(** The window of the WHERE clause on the day of a birthday. *)
Lemma birthday_window_spec (t e b : Z) :
  birthday_window t e (Some b) = true
  <-> (t <= b <= e) \/ (e < t /\ (t <= b \/ b <= e)).
Proof.
  unfold birthday_window, Sql.between, Sql.ge, Sql.le.
  rewrite orb_true_iff, !andb_true_iff, orb_true_iff.
  rewrite Z.ltb_lt, !Z.leb_le. tauto.
Qed.

(** The example of section 8: seven days from the 25th of a month of 31 days
    end on the 1st, and the window holds the days 25 to 31 and the day 1. *)
Example birthday_window_month_end (b : Z) :
  1 <= b <= 31 ->
  add_days (mkDate 2024 1 25) 7 = Some (mkDate 2024 2 1)
  /\ (birthday_window 25 1 (Some b) = true <-> 25 <= b <= 31 \/ b = 1).
Proof. intros Hb. split; [reflexivity|]. rewrite birthday_window_spec. lia. Qed.

(** [Contact.birthday] is no attribute of the class, so building the query
    raises; nothing is read from the table. *)
Lemma get_upcoming_birthdays_raises (today : date) (days : Z) (db : DB) :
  exists e, ContactRepository.get_upcoming_birthdays today days db = (inl e, db).
Proof.
  unfold ContactRepository.get_upcoming_birthdays. run.
  destruct (add_days today days); cbn; eauto.
Qed.

(** C5 at a failing input: on 25 January 2024, with Alice and Bob stored,
    [get_upcoming_birthdays(7)] raises [AttributeError] instead of returning
    contacts, and the route answers 500. *)
Theorem upcoming_birthdays_attribute_error :
  ContactRepository.get_upcoming_birthdays (mkDate 2024 1 25) 7 two_contacts
  = (inl (AttributeError "type object 'Contact' has no attribute 'birthday'"),
     two_contacts)
  /\ routes.get_upcoming_birthdays (mkDate 2024 1 25) (Some 7) two_contacts
     = (mkResponse 500 InternalServerError, two_contacts).
Proof. split; reflexivity. Qed.

(** *** Updating *)

Lemma to_row_updated (r : row) (body : ContactUpdateSchema.t) :
  to_row (Row.id r) (updated r body) = patched r body.
Proof.
  destruct r as [i fn ln em ph bd [ad|]],
    body as [[a|] [b|] [[c|]|] [d|] [[e|]|] [[f|]|]]; reflexivity.
Qed.

(** The loop assigns no identifier: [id] is not a field of the schema. *)
Lemma updated_id (r : row) (body : ContactUpdateSchema.t) :
  updated r body !! "id" = Some (VInt (Row.id r)).
Proof.
  unfold updated. rewrite set_items_other.
  - apply (load_lookup r Contact.id).
  - intros H. apply model_dump_keys in H. cbn in H.
    repeat (destruct H as [H|H]; [discriminate H|]). exact H.
Qed.

Lemma column_value_updated_id (r : row) (body : ContactUpdateSchema.t) :
  column_value (updated r body) Contact.id = VInt (Row.id r).
Proof. unfold column_value. cbn [Contact.name]. now rewrite updated_id. Qed.

Lemma refresh_eq (self : Instance) (pk : Z) (r : row) (db : DB) :
  column_value self Contact.id = VInt pk ->
  List.find (has_id pk) (contacts db) = Some r ->
  refresh self db = (inr (load r ∪ self), db).
Proof. intros Hid Hfind. unfold refresh. run. now rewrite Hid, Hfind. Qed.

Lemma patched_id (r r' : row) (body : ContactUpdateSchema.t) :
  patched r body = inr r' -> Row.id r' = Row.id r.
Proof.
  unfold patched. destruct (ContactUpdateSchema.email body) as [[?|]|];
    intros H; try discriminate H; now injection H as <-.
Qed.

Lemma patched_exn (r : row) (body : ContactUpdateSchema.t) (e : exn) :
  patched r body = inl e -> e = IntegrityError (NotNull Contact.email).
Proof.
  unfold patched. destruct (ContactUpdateSchema.email body) as [[?|]|];
    intros H; try discriminate H; now injection H as <-.
Qed.

(** After the loop the columns of the object are those of the row the
    update asks for. *)
Lemma column_value_updated (r r' : row) (body : ContactUpdateSchema.t)
    (c : Contact.column) :
  patched r body = inr r' -> column_value (updated r body) c = Row.get c r'.
Proof.
  intros Hp.
  assert (Hrow : to_row (Row.id r) (updated r body) = inr r')
    by now rewrite to_row_updated.
  destruct c;
    try (symmetry; apply (to_row_get _ _ _ _ Hrow); discriminate).
  rewrite column_value_updated_id. cbn. f_equal. symmetry.
  now apply patched_id in Hp.
Qed.

Lemma find_ext_eq {A} (f g : A -> bool) (l : list A) :
  (forall x, f x = g x) -> List.find f l = List.find g l.
Proof.
  intros H. induction l as [|x l IH]; cbn; [reflexivity|].
  now rewrite H, IH.
Qed.

(** The values of the statement fit their columns when the row they make
    does. *)
Lemma check_values_updated (r r' : row) (body : ContactUpdateSchema.t) :
  patched r body = inr r' ->
  check_values (updated r body)
  = match too_long r' with
    | Some c => inl (DBAPIError (refusal c))
    | None => inr tt
    end.
Proof.
  intros Hp. unfold check_values, too_long.
  rewrite (find_ext_eq _ (fun c => negb (fits_column c r'))); [reflexivity|].
  intros c. unfold fits_column. now rewrite (column_value_updated r r' body c Hp).
Qed.

Lemma check_values_exn (self : Instance) (e : exn) :
  check_values self = inl e -> from_database e.
Proof.
  unfold check_values. destruct (List.find _ _); [|discriminate].
  now intros [= <-].
Qed.

Lemma check_unique_exn (r : row) (rows : list row) (e : exn) :
  check_unique r rows = inl e -> from_database e.
Proof.
  unfold check_unique. destruct (duplicate r rows); [|discriminate].
  now intros [= <-].
Qed.

Lemma to_row_ext (i : Z) (s1 s2 : Instance) :
  (forall c, c <> Contact.id -> column_value s1 c = column_value s2 c) ->
  to_row i s1 = to_row i s2.
Proof.
  intros H. unfold to_row.
  now rewrite (H Contact.first_name), (H Contact.last_name), (H Contact.email),
    (H Contact.phone), (H Contact.birthdate), (H Contact.aditional_data)
    by discriminate.
Qed.

(** No UPDATE is sent exactly when the row the update asks for is the row
    that is stored. *)
Lemma unchanged_updated (r : row) (body : ContactUpdateSchema.t) :
  unchanged (load r) (updated r body) = true <-> patched r body = inr r.
Proof.
  unfold unchanged. rewrite List.forallb_forall. split.
  - intros H. rewrite <- to_row_updated, <- (to_row_load r) at 1.
    apply to_row_ext. intros c _.
    assert (Hc : In c Contact.columns) by (destruct c; cbn; tauto).
    apply H in Hc. now apply bool_decide_eq_true_1 in Hc.
  - intros Hp c _. apply bool_decide_eq_true_2.
    rewrite column_value_load. now apply column_value_updated.
Qed.

Lemma filter_replaced (cid : Z) (r r' : row) (db : DB) :
  List.filter (has_id cid) (contacts db) = [r] -> Row.id r' = cid ->
  List.filter (has_id cid) (contacts (replaced cid r' db)) = [r'].
Proof.
  intros Hf Hid. cbn [replaced contacts]. unfold others.
  rewrite List.filter_app, filter_others_has_id, Hf. cbn.
  now replace (has_id cid r') with true by (symmetry; now apply has_id_true).
Qed.

(** [update_contact] on an identifier that one row [r] has. *)
Lemma update_contact_one (cid : Z) (r : row) (body : ContactUpdateSchema.t)
    (db : DB) :
  -2147483648 <= cid <= 2147483647 ->
  List.filter (has_id cid) (contacts db) = [r] ->
  ContactRepository.update_contact cid body db
  = if unchanged (load r) (updated r body)
    then (inr (Some (load r ∪ updated r body)), db)
    else
      match check_values (updated r body) with
      | inl e => (inl e, db)
      | inr _ =>
          match patched r body with
          | inl e => (inl e, db)
          | inr r' =>
              match check_unique r' (others cid db) with
              | inl e => (inl e, db)
              | inr _ =>
                  (inr (Some (load r' ∪ updated r body)), replaced cid r' db)
              end
          end
      end.
Proof.
  intros Hcid Hf.
  assert (Hfind : List.find (has_id cid) (contacts db) = Some r)
    by now rewrite find_has_id, Hf.
  assert (Hid : Row.id r = cid)
    by (apply List.find_some in Hfind as [_ H]; now apply has_id_true).
  unfold ContactRepository.update_contact. unfold bind at 1.
  rewrite get_contact_by_id_eq, Hf by assumption. cbn [scalar_one_or_none ret].
  unfold commit_dirty. run. fold (updated r body).
  rewrite column_value_load. cbn.
  destruct (unchanged (load r) (updated r body)); cbn.
  - subst cid. now rewrite (refresh_eq _ (Row.id r) r) by
      (auto using column_value_updated_id).
  - destruct (check_values (updated r body)) as [e|[]]; cbn; [reflexivity|].
    rewrite column_value_updated_id. cbn. rewrite to_row_updated.
    destruct (patched r body) as [e|r'] eqn:Hp; cbn; [reflexivity|].
    apply patched_id in Hp. subst cid. fold (others (Row.id r) db).
    destruct (check_unique r' (others (Row.id r) db)); cbn; [reflexivity|].
    change (mkDB _ (contacts_id_seq db)) with (replaced (Row.id r) r' db).
    rewrite (refresh_eq _ (Row.id r) r'); [reflexivity| |].
    + apply column_value_updated_id.
    + now rewrite find_has_id, (filter_replaced (Row.id r) r r').
Qed.

(** The ways [update_contact] ends: no contact has the identifier; an
    exception of the database, and the table is as it was; or the one row
    [r] with the identifier is asked to become [r'], which it is already,
    or which the table accepts: it then lists [r'] and no longer [r]. *)
Lemma update_contact_outcome (db : DB) (cid : Z) (body : ContactUpdateSchema.t) :
  ContactRepository.update_contact cid body db = (inr None, db)
  \/ (exists e, from_database e
                /\ ContactRepository.update_contact cid body db = (inl e, db))
  \/ (exists r r',
        List.filter (has_id cid) (contacts db) = [r]
        /\ -2147483648 <= cid <= 2147483647
        /\ patched r body = inr r'
        /\ ((r' = r
             /\ ContactRepository.update_contact cid body db
                = (inr (Some (load r ∪ updated r body)), db))
            \/ (too_long r' = None
                /\ check_unique r' (others cid db) = inr tt
                /\ ContactRepository.update_contact cid body db
                   = (inr (Some (load r' ∪ updated r body)),
                      replaced cid r' db)))).
Proof.
  destruct (in_int32 cid) eqn:Hr.
  2: { right; left. exists (DBAPIError OutOfRange). split; [exact I|].
       unfold ContactRepository.update_contact, bind.
       now rewrite get_contact_by_id_cases, Hr. }
  apply in_int32_spec in Hr.
  destruct (List.filter (has_id cid) (contacts db)) as [|r [|r2 rs]] eqn:Hf.
  - left. unfold ContactRepository.update_contact, bind.
    now rewrite get_contact_by_id_eq, Hf by assumption.
  - rewrite (update_contact_one _ r) by assumption.
    destruct (unchanged (load r) (updated r body)) eqn:Hu.
    { apply unchanged_updated in Hu. right; right. exists r, r.
      split; [reflexivity|]. split; [assumption|]. split; [assumption|].
      left. now split. }
    destruct (patched r body) as [e|r'] eqn:Hp.
    { right; left.
      destruct (check_values (updated r body)) as [e'|[]] eqn:Hv.
      - exists e'. split; [now apply check_values_exn in Hv | reflexivity].
      - exists e. split; [|reflexivity]. now rewrite (patched_exn _ _ _ Hp). }
    rewrite (check_values_updated r r' body Hp).
    destruct (too_long r') as [c|] eqn:Hlong.
    { right; left. now exists (DBAPIError (refusal c)). }
    destruct (check_unique r' (others cid db)) as [e|[]] eqn:Hc.
    + right; left. exists e. split; [now apply check_unique_exn in Hc|reflexivity].
    + right; right. exists r, r'.
      split; [reflexivity|]. split; [assumption|]. split; [assumption|].
      right. now repeat split.
  - right; left. exists MultipleResultsFound. split; [exact I|].
    unfold ContactRepository.update_contact, bind.
    now rewrite get_contact_by_id_eq, Hf by assumption.
Qed.

Lemma filter_single_id (cid : Z) (r : row) (rows : list row) :
  List.filter (has_id cid) rows = [r] -> In r rows /\ Row.id r = cid.
Proof.
  intros Hf.
  assert (Hin : In r (List.filter (has_id cid) rows)) by (rewrite Hf; now left).
  apply List.filter_In in Hin as [Hin Hid]. now apply has_id_true in Hid.
Qed.

(** A table lists the rows a condition selects and the rows it does not. *)
Lemma filter_split_perm {A} (p : A -> bool) (l : list A) :
  Permutation l (List.filter p l ++ List.filter (fun x => negb (p x)) l).
Proof.
  induction l as [|x l IH]; cbn; [constructor|].
  destruct (p x); cbn; [now constructor | now apply Permutation_cons_app].
Qed.

Lemma others_perm (cid : Z) (r : row) (db : DB) :
  List.filter (has_id cid) (contacts db) = [r] ->
  Permutation (contacts db) (r :: others cid db).
Proof.
  intros Hf. unfold others.
  rewrite (filter_split_perm (has_id cid) (contacts db)) at 1.
  now rewrite Hf.
Qed.

Lemma replaced_perm (cid : Z) (r r' : row) (db : DB) :
  List.filter (has_id cid) (contacts db) = [r] ->
  Permutation (contacts (replaced cid r' db)) (r' :: others cid db).
Proof.
  intros Hf. cbn [replaced contacts]. rewrite Hf. cbn [List.map].
  symmetry. apply Permutation_cons_append.
Qed.

(** An update keeps the identifiers of the table, each as often as it was
    there. *)
Lemma update_contact_ids (db : DB) (cid : Z) (body : ContactUpdateSchema.t) :
  Permutation
    (List.map Row.id (contacts (snd (ContactRepository.update_contact cid body db))))
    (List.map Row.id (contacts db)).
Proof.
  destruct (update_contact_outcome db cid body)
    as [->|[(e & _ & ->)|(r & r' & Hf & _ & Hp & [[_ ->]|(_ & _ & ->)])]];
    try reflexivity.
  cbn [snd].
  transitivity (List.map Row.id (r' :: others cid db));
    [apply Permutation_map; now apply (replaced_perm cid r)|].
  transitivity (List.map Row.id (r :: others cid db));
    [|symmetry; apply Permutation_map; now apply others_perm].
  cbn [List.map]. now rewrite (patched_id _ _ _ Hp).
Qed.


Lemma find_none_intro {A} (f : A -> bool) (l : list A) :
  (forall x, In x l -> f x = false) -> List.find f l = None.
Proof.
  induction l as [|x l IH]; intros H; [reflexivity|]. cbn.
  rewrite (H x) by now left. apply IH. intros y Hy. apply H. now right.
Qed.

Lemma NoDup_map_eq {A B} (f : A -> B) (l : list A) (a b : A) :
  NoDup (List.map f l) -> In a l -> In b l -> f a = f b -> a = b.
Proof.
  induction l as [|x l IH]; cbn; intros Hnd Ha Hb Hf; [contradiction|].
  inversion Hnd as [|y l' Hnotin Hnd']; subst.
  rewrite list_elem_of_In in Hnotin.
  destruct Ha as [->|Ha], Hb as [->|Hb]; auto.
  - exfalso. apply Hnotin. rewrite Hf. now apply List.in_map.
  - exfalso. apply Hnotin. rewrite <- Hf. now apply List.in_map.
Qed.

Lemma in_others (pk : Z) (db : DB) (o : row) :
  In o (others pk db) <-> In o (contacts db) /\ Row.id o <> pk.
Proof.
  unfold others. rewrite List.filter_In, negb_true_iff.
  unfold has_id. now rewrite Z.eqb_neq.
Qed.

Lemma fits_stored (db : DB) (r : row) (c : Contact.column) :
  well_formed db -> In r (contacts db) -> fits_column c r = true.
Proof.
  intros (_ & _ & _ & Hfit) Hin.
  rewrite List.Forall_forall in Hfit. specialize (Hfit r Hin).
  unfold too_long in Hfit.
  assert (Hc : In c Contact.columns) by (destruct c; cbn; tauto).
  apply (List.find_none _ _ Hfit) in Hc. now apply negb_false_iff in Hc.
Qed.

Lemma existsb_false {A} (f : A -> bool) (l : list A) :
  (forall x, In x l -> f x = false) -> existsb f l = false.
Proof.
  intros H. destruct (existsb f l) eqn:E; [|reflexivity].
  apply existsb_exists in E as (x & Hx & Hf). now rewrite H in Hf.
Qed.


(** A row that shares nothing unique with the rows it is checked against. *)
Lemma check_unique_ok (r : row) (rows : list row) :
  check_unique r rows = inr tt ->
  forall o, In o rows ->
    Row.id o <> Row.id r /\ Row.email o <> Row.email r
    /\ Row.phone o <> Row.phone r.
Proof.
  unfold check_unique.
  destruct (duplicate r rows) eqn:Hd; [discriminate|]. intros _ o Ho.
  assert (Hc : forall c, Contact.primary_key c || Contact.unique c = true ->
                         Row.get c o <> Row.get c r).
  { intros c Hkey Heq.
    assert (Hin : In c Contact.columns) by (destruct c; cbn; tauto).
    apply (List.find_none _ _ Hd) in Hin. unfold clashes in Hin.
    rewrite Hkey in Hin. cbn in Hin.
    assert (Hex : existsb (fun o => bool_decide (Row.get c o = Row.get c r)) rows
                  = true).
    { apply existsb_exists. exists o. split; [assumption|].
      now apply bool_decide_eq_true_2. }
    congruence. }
  repeat split; intros Heq.
  - apply (Hc Contact.id eq_refl). cbn. now rewrite Heq.
  - apply (Hc Contact.email eq_refl). cbn. now rewrite Heq.
  - apply (Hc Contact.phone eq_refl). cbn. now rewrite Heq.
Qed.

Lemma NoDup_map_filter {A B} (f : A -> B) (p : A -> bool) (l : list A) :
  NoDup (List.map f l) -> NoDup (List.map f (List.filter p l)).
Proof.
  induction l as [|x l IH]; cbn; intros Hnd; [constructor|].
  inversion Hnd as [|y l' Hnotin Hnd']; subst.
  destruct (p x); cbn; [|now apply IH].
  constructor; [|now apply IH].
  rewrite list_elem_of_In in *. intros Hin. apply Hnotin.
  apply List.in_map_iff in Hin as (o & Ho & Hin).
  apply List.filter_In in Hin as [Hin _].
  apply List.in_map_iff. now exists o.
Qed.

Lemma Forall_filter_keep {A} (P : A -> Prop) (p : A -> bool) (l : list A) :
  Forall P l -> Forall P (List.filter p l).
Proof.
  rewrite !List.Forall_forall. intros H x Hx.
  apply List.filter_In in Hx as [Hx _]. now apply H.
Qed.

Lemma others_well_formed (cid : Z) (db : DB) :
  well_formed db -> well_formed (mkDB (others cid db) (contacts_id_seq db)).
Proof.
  intros (Hid & Hem & Hph & Hfit). unfold well_formed, others. cbn.
  repeat split; try now apply NoDup_map_filter.
  now apply Forall_filter_keep.
Qed.

(** A row listed after the others keeps the values of a column pairwise
    distinct when its value is that of none of them. *)
Lemma NoDup_map_snoc {A B} (f : A -> B) (l : list A) (x : A) :
  NoDup (List.map f l) -> (forall o, In o l -> f o <> f x) ->
  NoDup (List.map f (l ++ [x])).
Proof.
  intros Hnd Hnew. rewrite List.map_app. apply NoDup_app.
  split; [assumption|]. split; [|cbn; apply NoDup_singleton].
  intros y Hy Hx. rewrite list_elem_of_In in Hy.
  apply list_elem_of_singleton in Hx. subst y.
  apply List.in_map_iff in Hy as (o & Ho & Hin). now apply (Hnew o).
Qed.

Lemma replaced_well_formed (db : DB) (cid : Z) (r r' : row) :
  well_formed db -> List.filter (has_id cid) (contacts db) = [r] ->
  Row.id r' = cid -> too_long r' = None ->
  check_unique r' (others cid db) = inr tt ->
  well_formed (replaced cid r' db).
Proof.
  intros Hwf Hf Hid' Hlong Hc.
  pose proof (others_well_formed cid db Hwf) as (Hid & Hem & Hph & Hfit).
  cbn [contacts] in Hid, Hem, Hph, Hfit.
  pose proof (check_unique_ok _ _ Hc) as Hother.
  unfold well_formed. cbn [replaced contacts]. rewrite Hf. cbn [List.map].
  repeat split.
  - apply NoDup_map_snoc; [assumption|]. intros o Ho. now apply Hother.
  - apply NoDup_map_snoc; [assumption|]. intros o Ho. now apply Hother.
  - apply NoDup_map_snoc; [assumption|]. intros o Ho. now apply Hother.
  - apply Forall_app. split; [assumption|]. now constructor.
Qed.

Lemma update_contact_well_formed
    (db : DB) (cid : Z) (body : ContactUpdateSchema.t) :
  well_formed db ->
  well_formed (snd (ContactRepository.update_contact cid body db)).
Proof.
  intros Hwf.
  destruct (update_contact_outcome db cid body)
    as [->|[(e & _ & ->)|(r & r' & Hf & _ & Hp & [[_ ->]|(Hl & Hc & ->)])]];
    try assumption.
  cbn [snd]. apply (replaced_well_formed db cid r r'); auto.
  apply patched_id in Hp. apply filter_single_id in Hf as [_ Hid]. congruence.
Qed.







(** A supplied birthday is set on the object under the name [birthday] and
    is not a column: the table keeps the former [birthdate]. *)
Example update_contact_birthday_not_stored :
  exists contact,
    ContactRepository.update_contact 1 move_birthday two_contacts
    = (inr (Some contact), two_contacts)
    /\ contact !! "birthday" = Some (VDate (mkDate 1991 6 2))
    /\ contact !! "birthdate" = Some (VDate (mkDate 1990 5 1)).
Proof.
  exists (load alice ∪ updated alice move_birthday).
  repeat split; vm_compute; reflexivity.
Qed.

(** The section 8 example of an update, as the database carries it out: the
    new version of Alice's row is listed after Bob's. *)
Example update_contact_moves_row :
  contacts (snd (ContactRepository.update_contact 1 rename_alice two_contacts))
  = [bob; Row.mk 1 "Alicia" "Smith" "alice@x.com" "12345" (mkDate 1990 5 1) None].
Proof. reflexivity. Qed.

(** *** Further properties of the code *)

(** The WHERE clause of [get_upcoming_birthdays] selects the day [b] of a
    birthday exactly when it lies between the day [t] of today and the day
    [e] of the end date, or, when [e] is before [t], when it is at least [t]
    or at most [e]; so the days [t] and [e] themselves are always selected,
    and a NULL day never is. *)
Theorem where_clause_day_window (t e b : Z) :
  (birthday_window t e (Some b) = true
   <-> (t <= b <= e) \/ (e < t /\ (t <= b \/ b <= e)))
  /\ birthday_window t e (Some t) = true
  /\ birthday_window t e (Some e) = true
  /\ birthday_window t e None = false.
Proof.
  split; [apply birthday_window_spec|].
  split; [apply birthday_window_spec; lia|].
  split; [apply birthday_window_spec; lia|].
  unfold birthday_window. cbn. now rewrite andb_false_r.
Qed.

(** X2: [create_contact] stores nothing, whatever the request: the
    constructor of [Contact] raises [TypeError] on the keyword [birthday],
    and the route answers 500 with that message. *)
Theorem create_contact_never_stores (body : ContactSchema.t) (db : DB) :
  ContactRepository.create_contact body db
  = (inl (TypeError "'birthday' is an invalid keyword argument for Contact"), db)
  /\ routes.create_contact body db
     = (mkResponse 500
          (Detail "'birthday' is an invalid keyword argument for Contact"), db).
Proof. split; reflexivity. Qed.

(** X3: [get_upcoming_birthdays] raises on every date, every number of days
    and every table, and leaves the table as it was; the route never answers
    200. *)
Theorem upcoming_birthdays_never_returns (today : date) (days : Z) (db : DB) :
  (exists e,
      ContactRepository.get_upcoming_birthdays today days db = (inl e, db))
  /\ status_code (fst (routes.get_upcoming_birthdays today (Some days) db)) <> 200
  /\ snd (routes.get_upcoming_birthdays today (Some days) db) = db.
Proof.
  split; [apply get_upcoming_birthdays_raises|].
  unfold routes.get_upcoming_birthdays, Query.
  destruct (1 <=? days); cbn; [|split; [discriminate | reflexivity]].
  unfold respond, ContactService.get_upcoming_birthdays,
    ContactRepository.get_upcoming_birthdays.
  run. destruct (add_days today days); cbn; split;
    first [discriminate | reflexivity].
Qed.


(** X5: an [update_contact] that raises leaves the table as it was. *)
Theorem update_contact_failure_changes_nothing
    (db db' : DB) (contact_id : Z) (body : ContactUpdateSchema.t) (e : exn) :
  ContactRepository.update_contact contact_id body db = (inl e, db') -> db' = db.
Proof.
  destruct (update_contact_outcome db contact_id body)
    as [->|[(e' & _ & ->)|(r & r' & _ & _ & _ & [[_ ->]|(_ & _ & ->)])]];
    try discriminate.
  now intros [= _ <-].
Qed.

Lemma update_contact_failure_changes_nothing_witness :
  snd (ContactRepository.update_contact 1 take_bobs_email two_contacts)
  = two_contacts.
Proof.
  exact (update_contact_failure_changes_nothing two_contacts
           (snd (ContactRepository.update_contact 1 take_bobs_email two_contacts))
           1 take_bobs_email (IntegrityError (Unique Contact.email)) eq_refl).
Defined.

(** X6: on a table with distinct identifiers, [get_contact_by_id] returns
    the stored contact that has the identifier, and the route for a single
    contact then fails with a 500: the object has no attribute [birthday]. *)
Theorem get_contact_by_id_found (db : DB) (r : row) :
  well_formed db -> In r (contacts db) ->
  ContactRepository.get_contact_by_id (Row.id r) db = (inr (Some (load r)), db)
  /\ routes.get_contact (Row.id r) db = (mkResponse 500 InternalServerError, db).
Proof.
  intros Hwf Hin. pose proof Hwf as (Hnd & _).
  pose proof (stored_in_int32 db r Hwf Hin) as Hrange.
  unfold routes.get_contact, respond, bind, ContactService.get_contact.
  rewrite get_contact_by_id_eq, filter_has_id_member by assumption.
  split; [reflexivity|]. cbn. unfold response_one.
  now rewrite model_validate_load.
Qed.

Lemma get_contact_by_id_found_witness :
  ContactRepository.get_contact_by_id 2 two_contacts
  = (inr (Some (load bob)), two_contacts)
  /\ routes.get_contact 2 two_contacts
     = (mkResponse 500 InternalServerError, two_contacts).
Proof.
  apply (get_contact_by_id_found two_contacts bob two_contacts_well_formed).
  right. now left.
Defined.

(** **** Reading never writes *)

Lemma respond_snd {A} (status : Z) (model : A -> option Body) (h : M A) (db : DB) :
  snd (respond status model h db) = snd (h db).
Proof.
  unfold respond. destruct (h db) as [[e|a] d]; cbn.
  - now destruct e.
  - now destruct (model a).
Qed.

Lemma bind_snd {A B} (m : M A) (k : A -> M B) (db : DB) :
  (forall a d, snd (k a d) = d) -> snd (bind m k db) = snd (m db).
Proof.
  intros Hk. unfold bind. destruct (m db) as [[e|a] d]; cbn; [reflexivity|].
  apply Hk.
Qed.

Lemma get_contacts_snd (limit offset : Z) (db : DB) :
  snd (ContactRepository.get_contacts limit offset db) = db.
Proof.
  unfold ContactRepository.get_contacts, execute. run.
  destruct (in_int64 offset); cbn; [|reflexivity].
  destruct (in_int64 limit); cbn; [|reflexivity].
  destruct (offset <? 0); cbn; [reflexivity|].
  now destruct (limit <? 0).
Qed.

Lemma get_contact_by_id_snd (cid : Z) (db : DB) :
  snd (ContactRepository.get_contact_by_id cid db) = db.
Proof.
  rewrite get_contact_by_id_cases. destruct (in_int32 cid); [|reflexivity].
  now destruct (List.filter (has_id cid) (contacts db)) as [|r [|r2 rs]].
Qed.

Lemma get_upcoming_birthdays_snd (today : date) (days : Z) (db : DB) :
  snd (ContactRepository.get_upcoming_birthdays today days db) = db.
Proof. now destruct (get_upcoming_birthdays_raises today days db) as [e ->]. Qed.

Lemma get_contacts_route_snd (limit offset : option Z) (db : DB) :
  snd (routes.get_contacts limit offset db) = db.
Proof.
  unfold routes.get_contacts.
  destruct (Query 10 (Some 10) (Some 100) limit),
    (Query 0 (Some 0) None offset); try reflexivity.
  rewrite respond_snd, bind_snd by reflexivity. apply get_contacts_snd.
Qed.

Lemma get_contact_route_snd (cid : Z) (db : DB) :
  snd (routes.get_contact cid db) = db.
Proof.
  unfold routes.get_contact. rewrite respond_snd, bind_snd.
  - apply get_contact_by_id_snd.
  - now intros [c|] d.
Qed.

Lemma birthdays_route_snd (today : date) (days : option Z) (db : DB) :
  snd (routes.get_upcoming_birthdays today days db) = db.
Proof.
  unfold routes.get_upcoming_birthdays.
  destruct (Query 7 (Some 1) None days); [|reflexivity].
  rewrite respond_snd, bind_snd by reflexivity.
  apply get_upcoming_birthdays_snd.
Qed.

(** X7: the operations that read leave the database as it is, whatever
    their arguments and whether they return or raise: listing, lookup by
    identifier, search and upcoming birthdays, in the repository and at the
    routes. *)
Theorem reads_leave_table (db : DB) :
  (forall limit offset,
      snd (ContactRepository.get_contacts limit offset db) = db)
  /\ (forall contact_id,
        snd (ContactRepository.get_contact_by_id contact_id db) = db)
  /\ (forall first_name last_name email,
        snd (ContactRepository.search_contacts first_name last_name email db) = db)
  /\ (forall today days,
        snd (ContactRepository.get_upcoming_birthdays today days db) = db)
  /\ (forall limit offset, snd (routes.get_contacts limit offset db) = db)
  /\ (forall contact_id, snd (routes.get_contact contact_id db) = db)
  /\ (forall first_name last_name email,
        snd (routes.search_contacts first_name last_name email db) = db)
  /\ (forall today days, snd (routes.get_upcoming_birthdays today days db) = db).
Proof.
  repeat split; intros.
  - apply get_contacts_snd.
  - apply get_contact_by_id_snd.
  - now rewrite search_contacts_eq.
  - apply get_upcoming_birthdays_snd.
  - apply get_contacts_route_snd.
  - apply get_contact_route_snd.
  - now rewrite search_route_eq.
  - apply birthdays_route_snd.
Qed.

(** **** Pages *)

(** X8: consecutive pages join: for limits and offsets that are 64-bit
    integers, the page of [limit] contacts at [offset] followed by the page
    of [limit'] contacts at [offset + limit] is the page of [limit + limit']
    contacts at [offset]; a page that starts at or past the end of the table
    is empty. *)
Theorem get_contacts_pages_join (db : DB) (limit limit' offset : Z) :
  0 <= limit -> 0 <= limit' -> 0 <= offset ->
  limit + limit' <= 9223372036854775807 ->
  offset + limit <= 9223372036854775807 ->
  exists page page',
    ContactRepository.get_contacts limit offset db = (inr page, db)
    /\ ContactRepository.get_contacts limit' (offset + limit) db = (inr page', db)
    /\ ContactRepository.get_contacts (limit + limit') offset db
       = (inr (page ++ page')%list, db)
    /\ (Z.of_nat (length (contacts db)) <= offset -> page = []).
Proof.
  intros Hl Hl' Ho Hmax Hmax'. rewrite !get_contacts_eq by lia.
  eexists _, _. split; [reflexivity|]. split; [reflexivity|]. split.
  - unfold scalars_all. rewrite <- List.map_app.
    rewrite !Z2Nat.inj_add by lia. rewrite <- drop_drop.
    now rewrite take_take_drop.
  - intros Hend. rewrite drop_ge by lia. now rewrite take_nil.
Qed.

Lemma get_contacts_pages_join_witness :
  exists page page',
    ContactRepository.get_contacts 10 0 fifteen_contacts
    = (inr page, fifteen_contacts)
    /\ ContactRepository.get_contacts 10 10 fifteen_contacts
       = (inr page', fifteen_contacts)
    /\ ContactRepository.get_contacts 20 0 fifteen_contacts
       = (inr (page ++ page')%list, fifteen_contacts)
    /\ (Z.of_nat (length (contacts fifteen_contacts)) <= 0 -> page = []).
Proof.
  apply (get_contacts_pages_join fifteen_contacts 10 10 0); lia.
Defined.

(** X9: for parameters within the bounds of the route, the route that lists
    contacts answers 200 with an empty list when the page starts at or past
    the end of the table, and 500 when the page holds a contact, since a
    stored contact does not validate against the response model; an offset
    beyond 64 bits passes the bounds of the route and is answered 500 as
    well, the driver refusing it. *)
Theorem get_contacts_route_outcome (db : DB) (limit offset : Z) :
  10 <= limit <= 100 -> 0 <= offset ->
  (offset <= 9223372036854775807 ->
   Z.of_nat (length (contacts db)) <= offset ->
   routes.get_contacts (Some limit) (Some offset) db
   = (mkResponse 200 (Many []), db))
  /\ (offset <= 9223372036854775807 ->
      offset < Z.of_nat (length (contacts db)) ->
      routes.get_contacts (Some limit) (Some offset) db
      = (mkResponse 500 InternalServerError, db))
  /\ (9223372036854775807 < offset ->
      routes.get_contacts (Some limit) (Some offset) db
      = (mkResponse 500 InternalServerError, db)).
Proof.
  intros Hl Ho. unfold routes.get_contacts.
  rewrite Query_in_range by assumption.
  unfold Query. destruct (Z.leb_spec 0 offset); [|lia]. cbn [andb].
  unfold respond, bind, ContactService.get_contacts.
  split; [|split].
  - intros Hmax Hend. rewrite get_contacts_eq by lia. cbn [ret].
    rewrite drop_ge by lia. now rewrite take_nil.
  - intros Hmax Hend. rewrite get_contacts_eq by lia. cbn [ret].
    destruct (drop (Z.to_nat offset) (contacts db)) as [|r rs] eqn:Hd.
    + apply drop_nil_inv in Hd. lia.
    + destruct (Z.to_nat limit) as [|n] eqn:Hn; [lia|].
      cbn [take]. now rewrite response_many_loaded.
  - intros Hmax. now rewrite get_contacts_out_of_range by now left.
Qed.

Lemma get_contacts_route_outcome_witness :
  routes.get_contacts (Some 10) (Some 15) fifteen_contacts
  = (mkResponse 200 (Many []), fifteen_contacts)
  /\ routes.get_contacts (Some 10) (Some 14) fifteen_contacts
     = (mkResponse 500 InternalServerError, fifteen_contacts)
  /\ routes.get_contacts (Some 10) (Some 9223372036854775808) fifteen_contacts
     = (mkResponse 500 InternalServerError, fifteen_contacts).
Proof.
  split; [|split].
  - destruct (get_contacts_route_outcome fifteen_contacts 10 15) as (H & _);
      [lia | lia |]. apply H; cbn; lia.
  - destruct (get_contacts_route_outcome fifteen_contacts 10 14) as (_ & H & _);
      [lia | lia |]. apply H; cbn; lia.
  - destruct (get_contacts_route_outcome fifteen_contacts 10 9223372036854775808)
      as (_ & _ & H); [lia | lia |]. apply H. lia.
Defined.

(** **** Removing *)

(** X10: on a table that satisfies its constraints, removing a stored contact
    returns it, takes exactly its row out of the table (one row fewer, the
    others there and found as before), and the table still satisfies its
    constraints. *)
Theorem remove_contact_removes_one (db : DB) (r : row) :
  well_formed db -> In r (contacts db) ->
  exists db',
    ContactRepository.remove_contact (Row.id r) db = (inr (Some (load r)), db')
    /\ well_formed db'
    /\ S (length (contacts db')) = length (contacts db)
    /\ (forall o, In o (contacts db') <-> In o (contacts db) /\ o <> r)
    /\ (forall o, In o (contacts db) -> o <> r ->
        ContactRepository.get_contact_by_id (Row.id o) db'
        = (inr (Some (load o)), db')).
Proof.
  intros Hwf Hin. pose proof Hwf as (Hnd & _).
  pose proof (stored_in_int32 db r Hwf Hin) as Hrange.
  pose proof (others_well_formed (Row.id r) db Hwf) as Hwf'.
  assert (Hmem : forall o, In o (others (Row.id r) db)
                           <-> In o (contacts db) /\ o <> r).
  { intros o. rewrite in_others. split; intros [Ho Hne]; split; auto.
    - intros ->. now apply Hne.
    - intros Heq. apply Hne. now apply (NoDup_map_eq Row.id (contacts db)). }
  eexists. rewrite remove_contact_eq by assumption.
  rewrite find_has_id, filter_has_id_member by assumption.
  split; [reflexivity|]. split; [assumption|]. split; [|split].
  - cbn [contacts]. unfold others.
    pose proof (List.filter_length (has_id (Row.id r)) (contacts db)) as Hlen.
    rewrite filter_has_id_member in Hlen by assumption. cbn in Hlen. lia.
  - exact Hmem.
  - intros o Ho Hne.
    rewrite get_contact_by_id_eq by now apply (stored_in_int32 db o).
    rewrite filter_has_id_member; [reflexivity|apply Hwf'|].
    cbn [contacts]. now apply Hmem.
Qed.

Lemma remove_contact_removes_one_witness :
  exists db',
    ContactRepository.remove_contact 1 two_contacts = (inr (Some (load alice)), db')
    /\ well_formed db'
    /\ S (length (contacts db')) = length (contacts two_contacts)
    /\ (forall o, In o (contacts db') <-> In o (contacts two_contacts) /\ o <> alice)
    /\ (forall o, In o (contacts two_contacts) -> o <> alice ->
        ContactRepository.get_contact_by_id (Row.id o) db'
        = (inr (Some (load o)), db')).
Proof.
  apply (remove_contact_removes_one two_contacts alice two_contacts_well_formed).
  now left.
Defined.

Lemma others_others (cid : Z) (db : DB) :
  others cid (mkDB (others cid db) (contacts_id_seq db)) = others cid db.
Proof.
  unfold others. cbn [contacts].
  induction (contacts db) as [|x l IH]; cbn; [reflexivity|].
  destruct (has_id cid x) eqn:E; cbn; [assumption|]. rewrite E. cbn.
  now rewrite IH.
Qed.

(** X11: deleting is idempotent: on a table that satisfies its constraints,
    for an identifier that is a 32-bit integer, a second DELETE of the same
    identifier answers 204 again and changes nothing more, and a second
    [remove_contact] returns [None]. *)
Theorem delete_contact_twice (db : DB) (cid : Z) :
  well_formed db ->
  -2147483648 <= cid <= 2147483647 ->
  routes.delete_contact cid (snd (routes.delete_contact cid db))
  = (mkResponse 204 Empty, snd (routes.delete_contact cid db))
  /\ ContactRepository.remove_contact cid
       (snd (ContactRepository.remove_contact cid db))
     = (inr None, snd (ContactRepository.remove_contact cid db)).
Proof.
  intros Hwf Hcid. pose proof Hwf as (Hnd & _).
  pose proof (others_well_formed cid db Hwf) as (Hnd' & _).
  rewrite (delete_contact_eq cid db), (remove_contact_eq cid db) by assumption.
  cbn [snd].
  rewrite delete_contact_eq, remove_contact_eq by assumption.
  cbn [contacts_id_seq]. rewrite others_others. split; [reflexivity|].
  rewrite find_has_id. cbn [contacts]. unfold others.
  now rewrite filter_others_has_id.
Qed.

Lemma delete_contact_twice_witness :
  routes.delete_contact 1 (snd (routes.delete_contact 1 two_contacts))
  = (mkResponse 204 Empty, snd (routes.delete_contact 1 two_contacts)).
Proof.
  apply (delete_contact_twice two_contacts 1 two_contacts_well_formed). lia.
Defined.

(** **** Updating: absent contacts, the constraints, reading back *)

Lemma update_route_snd (cid : Z) (body : ContactUpdateSchema.t) (db : DB) :
  snd (routes.update_contact cid body db)
  = snd (ContactRepository.update_contact cid body db).
Proof.
  unfold routes.update_contact, ContactService.update_contact.
  rewrite respond_snd, bind_snd; [reflexivity|]. now intros [c|] d.
Qed.

(** X12: an update of an identifier that is a 32-bit integer and that no
    contact has returns [None] and changes nothing; the route answers 404. *)
Theorem update_contact_absent (db : DB) (cid : Z) (body : ContactUpdateSchema.t) :
  -2147483648 <= cid <= 2147483647 ->
  ~ In cid (List.map Row.id (contacts db)) ->
  ContactRepository.update_contact cid body db = (inr None, db)
  /\ routes.update_contact cid body db
     = (mkResponse 404 (Detail "Contact not found"), db).
Proof.
  intros Hcid Habs.
  assert (H : ContactRepository.update_contact cid body db = (inr None, db)).
  { unfold ContactRepository.update_contact, bind.
    rewrite get_contact_by_id_eq, filter_has_id_absent by assumption.
    reflexivity. }
  split; [exact H|].
  unfold routes.update_contact, respond, bind, ContactService.update_contact.
  now rewrite H.
Qed.

Lemma update_contact_absent_witness :
  ContactRepository.update_contact 7 rename_alice two_contacts
  = (inr None, two_contacts)
  /\ routes.update_contact 7 rename_alice two_contacts
     = (mkResponse 404 (Detail "Contact not found"), two_contacts).
Proof.
  apply (update_contact_absent two_contacts 7 rename_alice); [lia|].
  cbn. intros [H|[H|[]]]; discriminate H.
Defined.

(** X13: [update_contact] keeps the constraints of the table: after an
    update of a table whose identifiers, emails and phones are distinct and
    whose values fit their columns, they still are and do, whatever the
    request and whether it succeeds; so after the route. *)
Theorem update_contact_keeps_constraints
    (db : DB) (cid : Z) (body : ContactUpdateSchema.t) :
  well_formed db ->
  well_formed (snd (ContactRepository.update_contact cid body db))
  /\ well_formed (snd (routes.update_contact cid body db)).
Proof.
  intros Hwf. rewrite update_route_snd.
  split; now apply update_contact_well_formed.
Qed.

Lemma update_contact_keeps_constraints_witness :
  well_formed (snd (ContactRepository.update_contact 1 rename_alice two_contacts))
  /\ well_formed (snd (routes.update_contact 1 rename_alice two_contacts)).
Proof.
  apply (update_contact_keeps_constraints two_contacts 1 rename_alice).
  exact two_contacts_well_formed.
Defined.



Lemma patched_again (r r' : row) (body : ContactUpdateSchema.t) :
  patched r body = inr r' -> patched r' body = inr r'.
Proof.
  unfold patched.
  destruct (ContactUpdateSchema.email body) as [[e|]|],
    (ContactUpdateSchema.first_name body), (ContactUpdateSchema.last_name body),
    (ContactUpdateSchema.phone body);
    intros H; try discriminate H; now injection H as <-.
Qed.

(** X15: an update repeated changes nothing more: the table after the same
    [update_contact] twice is the table after it once, for every table,
    identifier and request. *)
Theorem update_contact_twice (db : DB) (cid : Z) (body : ContactUpdateSchema.t) :
  snd (ContactRepository.update_contact cid body
         (snd (ContactRepository.update_contact cid body db)))
  = snd (ContactRepository.update_contact cid body db).
Proof.
  destruct (update_contact_outcome db cid body)
    as [H|[(e & _ & H)|(r & r' & Hf & Hcid & Hp & [[_ H]|(_ & _ & H)])]];
    rewrite H; cbn [snd]; try now rewrite H.
  apply filter_single_id in Hf as Hr. destruct Hr as [_ Hid].
  pose proof (patched_id _ _ _ Hp) as Hid'.
  rewrite (update_contact_one cid r').
  - replace (unchanged (load r') (updated r' body)) with true; [reflexivity|].
    symmetry. apply unchanged_updated. now apply (patched_again r).
  - assumption.
  - apply (filter_replaced cid r r'); congruence.
Qed.

(** **** The response of an update *)








(** **** The bounds of the schema and the columns of the table *)



(** **** Searching: fewer filters, the case of letters, wildcards *)

Lemma sublist_map {A B} (f : A -> B) (l k : list A) :
  sublist l k -> sublist (List.map f l) (List.map f k).
Proof. induction 1; cbn; now constructor. Qed.





Lemma pattern_lower (f : string) :
  Sql.lower (list_ascii_of_string ("%" ++ f ++ "%"))
  = ("%"%char :: Sql.lower (list_ascii_of_string f) ++ ["%"%char])%list.
Proof.
  change ("%" ++ f ++ "%") with (String "%" (f ++ "%")).
  cbn [list_ascii_of_string]. rewrite list_ascii_of_string_app.
  unfold Sql.lower. cbn [List.map]. now rewrite List.map_app.
Qed.

Lemma ilike_if_folded (o o' : option string) (field : string) :
  folded o = folded o' -> ilike_if o field = ilike_if o' field.
Proof.
  unfold folded, ilike_if, Sql.ilike.
  destruct o as [f|], o' as [f'|]; cbn; intros H; try discriminate H;
    [|reflexivity].
  injection H as H.
  assert (He : String.eqb f "" = String.eqb f' "")
    by (destruct f, f'; cbn in *; first [reflexivity | discriminate H]).
  rewrite He. destruct (String.eqb f' ""); cbn; [reflexivity|].
  now rewrite !pattern_lower, H.
Qed.

(** X20: the search does not see the case of the letters of its filters:
    filters that are equal up to the case of ASCII letters give the same
    result, wildcards included. *)
Theorem search_ignores_case
    (first_name last_name email first_name' last_name' email' : option string)
    (db : DB) :
  folded first_name = folded first_name' ->
  folded last_name = folded last_name' ->
  folded email = folded email' ->
  ContactRepository.search_contacts first_name last_name email db
  = ContactRepository.search_contacts first_name' last_name' email' db.
Proof.
  intros H1 H2 H3. rewrite !search_contacts_eq. do 3 f_equal.
  apply List.filter_ext. intros r.
  now rewrite (ilike_if_folded _ _ _ H1), (ilike_if_folded _ _ _ H2),
    (ilike_if_folded _ _ _ H3).
Qed.

Lemma search_ignores_case_witness :
  ContactRepository.search_contacts (Some "aLi%") (Some "SMITH") None two_contacts
  = ContactRepository.search_contacts (Some "Ali%") (Some "smith") None two_contacts.
Proof.
  apply (search_ignores_case (Some "aLi%") (Some "SMITH") None
           (Some "Ali%") (Some "smith") None two_contacts); reflexivity.
Defined.

Lemma like_percents (p s : list ascii) :
  p <> [] -> forallb (Ascii.eqb "%") p = true -> Sql.like p s = true.
Proof.
  revert s. induction p as [|c p IH]; intros s Hne Hp; [contradiction|].
  cbn [forallb] in Hp. apply andb_true_iff in Hp as [Hc Hp].
  apply Ascii.eqb_eq in Hc. subst c.
  destruct p as [|c p].
  - apply like_only_percent.
  - rewrite like_percent, IH by (auto; discriminate). reflexivity.
Qed.

Lemma lower_percents (l : list ascii) :
  forallb (Ascii.eqb "%") l = true ->
  forallb (Ascii.eqb "%") (Sql.lower l) = true.
Proof.
  induction l as [|c l IH]; [reflexivity|].
  unfold Sql.lower. cbn [forallb List.map].
  rewrite !andb_true_iff. intros [Hc Hl]. apply Ascii.eqb_eq in Hc. subst c.
  split; [reflexivity | now apply IH].
Qed.

Lemma ilike_if_only_percent (o : option string) (field : string) :
  only_percent o = true -> ilike_if o field = true.
Proof.
  unfold only_percent, ilike_if, Sql.ilike. destruct o as [f|]; [|reflexivity].
  intros Hf. destruct (truthy (Some f)); [|reflexivity]. cbn [default].
  rewrite pattern_lower. apply like_percents; [discriminate|].
  cbn [forallb]. rewrite forallb_app, lower_percents by assumption.
  reflexivity.
Qed.

(** X21: a filter made of [%] only is no filter: the search whose filters
    are each absent, empty or made of [%] returns every contact. *)
Theorem search_percent_returns_all
    (first_name last_name email : option string) (db : DB) :
  only_percent first_name = true -> only_percent last_name = true ->
  only_percent email = true ->
  ContactRepository.search_contacts first_name last_name email db
  = (inr (scalars_all (contacts db)), db).
Proof.
  intros H1 H2 H3. rewrite search_contacts_eq. do 3 f_equal.
  rewrite <- (filter_all (contacts db)) at 2.
  apply List.filter_ext. intros r.
  now rewrite !ilike_if_only_percent.
Qed.

Lemma search_percent_returns_all_witness :
  ContactRepository.search_contacts (Some "%%") None (Some "") two_contacts
  = (inr (scalars_all (contacts two_contacts)), two_contacts).
Proof.
  apply (search_percent_returns_all (Some "%%") None (Some "") two_contacts);
    reflexivity.
Defined.

(** **** Any sequence of requests *)

Lemma sublist_List_filter {A} (p : A -> bool) (l : list A) :
  sublist (List.filter p l) l.
Proof.
  induction l as [|x l IH]; cbn; [constructor|].
  destruct (p x); now constructor.
Qed.

Lemma delete_contact_snd (cid : Z) (db : DB) :
  NoDup (List.map Row.id (contacts db)) ->
  snd (routes.delete_contact cid db)
  = if in_int32 cid then mkDB (others cid db) (contacts_id_seq db) else db.
Proof.
  intros Hnd. destruct (in_int32 cid) eqn:Hr.
  - apply in_int32_spec in Hr. now rewrite delete_contact_eq.
  - unfold routes.delete_contact, respond, bind, ContactService.remove_contact,
      ContactRepository.remove_contact, bind.
    now rewrite get_contact_by_id_cases, Hr.
Qed.

(** One request: the constraints are kept and no identifier is added. *)
Lemma serve_step (q : Request) (db : DB) :
  well_formed db ->
  well_formed (snd (serve q db))
  /\ submseteq (List.map Row.id (contacts (snd (serve q db))))
       (List.map Row.id (contacts db)).
Proof.
  intros Hwf. destruct q; cbn [serve].
  - now rewrite get_contacts_route_snd.
  - now rewrite get_contact_route_snd.
  - now rewrite create_route_500.
  - rewrite update_route_snd.
    split; [now apply update_contact_well_formed|].
    apply Permutation_submseteq, update_contact_ids.
  - pose proof Hwf as (Hnd & _). rewrite delete_contact_snd by assumption.
    destruct (in_int32 contact_id); [|now split].
    cbn [contacts]. split; [now apply others_well_formed|].
    apply sublist_submseteq, sublist_map, sublist_List_filter.
  - now rewrite search_route_eq.
  - now rewrite birthdays_route_snd.
Qed.

Lemma serve_all_cons (q : Request) (qs : list Request) (db : DB) :
  snd (serve_all (q :: qs) db) = snd (serve_all qs (snd (serve q db))).
Proof.
  cbn. destruct (serve q db) as [resp db']. cbn.
  now destruct (serve_all qs db').
Qed.

(** X22: whatever requests are served one after the other on a table that
    satisfies its constraints, the table satisfies them afterwards, and its
    identifiers are among those it had, none more often than before (the
    table may list its rows in another order): the service never adds a
    contact and never has more contacts than before. *)
Theorem service_never_adds (qs : list Request) (db : DB) :
  well_formed db ->
  well_formed (snd (serve_all qs db))
  /\ submseteq (List.map Row.id (contacts (snd (serve_all qs db))))
       (List.map Row.id (contacts db))
  /\ (length (contacts (snd (serve_all qs db))) <= length (contacts db))%nat.
Proof.
  intros Hwf.
  assert (H : well_formed (snd (serve_all qs db))
              /\ submseteq (List.map Row.id (contacts (snd (serve_all qs db))))
                   (List.map Row.id (contacts db))).
  { revert db Hwf. induction qs as [|q qs IH]; intros db Hwf.
    - now split.
    - rewrite serve_all_cons.
      destruct (serve_step q db Hwf) as [Hwf' Hsub].
      destruct (IH _ Hwf') as [Hwf'' Hsub'].
      split; [assumption|]. now transitivity
        (List.map Row.id (contacts (snd (serve q db)))). }
  destruct H as [Hwf' Hsub]. split; [assumption|]. split; [assumption|].
  apply submseteq_length in Hsub. now rewrite !length_map in Hsub.
Qed.

Lemma service_never_adds_witness :
  well_formed
    (snd (serve_all
            [POST_contacts carol_body; PUT_contact 1 rename_alice;
             DELETE_contact 2; GET_search (Some "ali") None None]
            two_contacts))
  /\ submseteq
       (List.map Row.id
          (contacts
             (snd (serve_all
                     [POST_contacts carol_body; PUT_contact 1 rename_alice;
                      DELETE_contact 2; GET_search (Some "ali") None None]
                     two_contacts))))
       (List.map Row.id (contacts two_contacts)).
Proof.
  destruct (service_never_adds
              [POST_contacts carol_body; PUT_contact 1 rename_alice;
               DELETE_contact 2; GET_search (Some "ali") None None]
              two_contacts two_contacts_well_formed) as (Hwf & Hsub & _).
  now split.
Defined.

(** **** Updates that set nothing, a null email, a taken email or phone *)

Lemma updated_nothing (r : row) : updated r nothing_set = load r.
Proof. reflexivity. Qed.

(** X23: an update that sets no field is a lookup: for a stored contact of a
    table with distinct identifiers it returns the contact as stored, with no
    attribute but the columns, and leaves the table as it was; the route then
    answers 500, as for every stored contact without a birthday in the
    request. *)
Theorem update_nothing_set (db : DB) (r : row) :
  well_formed db -> In r (contacts db) ->
  ContactRepository.update_contact (Row.id r) nothing_set db
  = (inr (Some (load r)), db)
  /\ ContactRepository.update_contact (Row.id r) nothing_set db
     = ContactRepository.get_contact_by_id (Row.id r) db
  /\ routes.update_contact (Row.id r) nothing_set db
     = (mkResponse 500 InternalServerError, db).
Proof.
  intros Hwf Hin. pose proof Hwf as (Hnd & _).
  pose proof (stored_in_int32 db r Hwf Hin) as Hrange.
  pose proof (filter_has_id_member r (contacts db) Hnd Hin) as Hf.
  assert (H : ContactRepository.update_contact (Row.id r) nothing_set db
              = (inr (Some (load r)), db)).
  { rewrite (update_contact_one _ r) by assumption.
    replace (unchanged (load r) (updated r nothing_set)) with true
      by (symmetry; apply unchanged_updated; now destruct r).
    rewrite updated_nothing. now rewrite (idemp (∪) (load r)). }
  split; [exact H|]. split.
  - rewrite H, get_contact_by_id_eq, Hf by assumption. reflexivity.
  - unfold routes.update_contact, respond, bind, ContactService.update_contact.
    rewrite H. cbn [ret]. unfold response_one.
    now rewrite model_validate_load.
Qed.

Lemma update_nothing_set_witness :
  ContactRepository.update_contact 2 nothing_set two_contacts
  = (inr (Some (load bob)), two_contacts)
  /\ routes.update_contact 2 nothing_set two_contacts
     = (mkResponse 500 InternalServerError, two_contacts).
Proof.
  destruct (update_nothing_set two_contacts bob two_contacts_well_formed
              (or_intror (or_introl eq_refl))) as (H & _ & Hroute).
  now split.
Defined.





Lemma clashes_id_others (r r' : row) (db : DB) :
  Row.id r' = Row.id r -> clashes Contact.id r' (others (Row.id r) db) = false.
Proof.
  intros Hid. unfold clashes. cbn [Contact.primary_key Contact.unique orb andb].
  apply existsb_false. intros o Ho. apply in_others in Ho as [_ Hne].
  apply bool_decide_eq_false_2. cbn. intros [= Heq]. congruence.
Qed.

(** X25: the uniqueness of emails and phones is enforced on update: on a
    table that satisfies its constraints, the update of a stored contact that
    sets only the email, or only the phone, to that of another stored contact
    raises [IntegrityError] and changes nothing. *)
Theorem update_taken_email_or_phone_refused (db : DB) (r o : row) :
  well_formed db -> In r (contacts db) -> In o (contacts db) -> o <> r ->
  ContactRepository.update_contact (Row.id r) (email_only (Row.email o)) db
  = (inl (IntegrityError (Unique Contact.email)), db)
  /\ ContactRepository.update_contact (Row.id r) (phone_only (Row.phone o)) db
     = (inl (IntegrityError (Unique Contact.phone)), db).
Proof.
  intros Hwf Hin Ho Hne. pose proof Hwf as (Hnd & Hem & Hph & _).
  pose proof (stored_in_int32 db r Hwf Hin) as Hrange.
  pose proof (filter_has_id_member r (contacts db) Hnd Hin) as Hf.
  assert (Hoth : In o (others (Row.id r) db)).
  { apply in_others. split; [assumption|]. intros Heq. apply Hne.
    now apply (NoDup_map_eq Row.id (contacts db)). }
  pose proof (fun c => fits_stored db r c Hwf Hin) as Hfr.
  pose proof (fun c => fits_stored db o c Hwf Ho) as Hfo.
  split; rewrite (update_contact_one _ r) by assumption.
  - set (r' := Row.mk (Row.id r) (Row.first_name r) (Row.last_name r)
                 (Row.email o) (Row.phone r) (Row.birthdate r)
                 (Row.aditional_data r)).
    assert (Hp : patched r (email_only (Row.email o)) = inr r') by reflexivity.
    destruct (unchanged (load r) (updated r (email_only (Row.email o)))) eqn:Hu.
    { apply unchanged_updated in Hu. rewrite Hp in Hu. injection Hu as Hu.
      apply (f_equal Row.email) in Hu. cbn in Hu.
      exfalso. apply Hne. now apply (NoDup_map_eq Row.email (contacts db)). }
    rewrite (check_values_updated r r' _ Hp), Hp.
    replace (too_long r') with (@None Contact.column).
    2: { symmetry. apply find_none_intro. intros c _. apply negb_false_iff.
         destruct c; try reflexivity;
           first [ exact (Hfr Contact.id)
                 | exact (Hfr Contact.first_name) | exact (Hfr Contact.last_name)
                 | exact (Hfo Contact.email) | exact (Hfr Contact.phone)
                 | exact (Hfr Contact.aditional_data) ]. }
    unfold check_unique, duplicate. cbn [Contact.columns List.find].
    rewrite (clashes_id_others r r' db eq_refl).
    replace (clashes Contact.first_name r' (others (Row.id r) db)) with false
      by reflexivity.
    replace (clashes Contact.last_name r' (others (Row.id r) db)) with false
      by reflexivity.
    replace (clashes Contact.email r' (others (Row.id r) db)) with true;
      [reflexivity|].
    symmetry. unfold clashes. cbn [Contact.primary_key Contact.unique orb andb].
    apply existsb_exists. exists o. split; [assumption|].
    now apply bool_decide_eq_true_2.
  - set (r' := Row.mk (Row.id r) (Row.first_name r) (Row.last_name r)
                 (Row.email r) (Row.phone o) (Row.birthdate r)
                 (Row.aditional_data r)).
    assert (Hp : patched r (phone_only (Row.phone o)) = inr r') by reflexivity.
    destruct (unchanged (load r) (updated r (phone_only (Row.phone o)))) eqn:Hu.
    { apply unchanged_updated in Hu. rewrite Hp in Hu. injection Hu as Hu.
      apply (f_equal Row.phone) in Hu. cbn in Hu.
      exfalso. apply Hne. now apply (NoDup_map_eq Row.phone (contacts db)). }
    rewrite (check_values_updated r r' _ Hp), Hp.
    replace (too_long r') with (@None Contact.column).
    2: { symmetry. apply find_none_intro. intros c _. apply negb_false_iff.
         destruct c; try reflexivity;
           first [ exact (Hfr Contact.id)
                 | exact (Hfr Contact.first_name) | exact (Hfr Contact.last_name)
                 | exact (Hfr Contact.email) | exact (Hfo Contact.phone)
                 | exact (Hfr Contact.aditional_data) ]. }
    unfold check_unique, duplicate. cbn [Contact.columns List.find].
    rewrite (clashes_id_others r r' db eq_refl).
    replace (clashes Contact.first_name r' (others (Row.id r) db)) with false
      by reflexivity.
    replace (clashes Contact.last_name r' (others (Row.id r) db)) with false
      by reflexivity.
    replace (clashes Contact.email r' (others (Row.id r) db)) with false.
    2: { symmetry. unfold clashes.
         cbn [Contact.primary_key Contact.unique orb andb].
         apply existsb_false. intros x Hx. apply in_others in Hx as [Hx Hxne].
         apply bool_decide_eq_false_2. cbn. intros [= Heq]. apply Hxne.
         f_equal. now apply (NoDup_map_eq Row.email (contacts db)). }
    replace (clashes Contact.phone r' (others (Row.id r) db)) with true;
      [reflexivity|].
    symmetry. unfold clashes. cbn [Contact.primary_key Contact.unique orb andb].
    apply existsb_exists. exists o. split; [assumption|].
    now apply bool_decide_eq_true_2.
Qed.

Lemma update_taken_email_or_phone_refused_witness :
  ContactRepository.update_contact 1 (email_only "bob@x.com") two_contacts
  = (inl (IntegrityError (Unique Contact.email)), two_contacts)
  /\ ContactRepository.update_contact 1 (phone_only "54321") two_contacts
     = (inl (IntegrityError (Unique Contact.phone)), two_contacts).
Proof.
  apply (update_taken_email_or_phone_refused two_contacts alice bob
           two_contacts_well_formed (or_introl eq_refl)
           (or_intror (or_introl eq_refl))).
  discriminate.
Defined.

(** **** The route of the birthdays *)

(** X26: the route of the upcoming birthdays refuses a number of days below
    1 with a 422 and answers every other request, the default of 7 days
    included, with a 500; the table is never changed. *)
Theorem birthdays_route_outcome (today : date) (days : Z) (db : DB) :
  (days < 1 ->
   routes.get_upcoming_birthdays today (Some days) db
   = (mkResponse 422 ValidationErrors, db))
  /\ (1 <= days ->
      routes.get_upcoming_birthdays today (Some days) db
      = (mkResponse 500 InternalServerError, db))
  /\ routes.get_upcoming_birthdays today None db
     = (mkResponse 500 InternalServerError, db).
Proof.
  unfold routes.get_upcoming_birthdays, Query. repeat split.
  - intros H. destruct (Z.leb_spec 1 days); [lia|]. reflexivity.
  - intros H. destruct (Z.leb_spec 1 days); [|lia]. cbn [andb].
    unfold respond, ContactService.get_upcoming_birthdays,
      ContactRepository.get_upcoming_birthdays.
    run. now destruct (add_days today days).
  - unfold respond, ContactService.get_upcoming_birthdays,
      ContactRepository.get_upcoming_birthdays.
    cbn [default]. now destruct (add_days today 7).
Qed.

(** **** Identifiers the column does not hold *)

(** X27: an identifier outside the 32-bit integers is refused by the driver
    when the query by identifier is executed: the lookup, the update and the
    removal raise [DBAPIError] and leave the table as it was, and the routes
    for one contact answer 500, not 404 or 204. *)
Theorem identifier_out_of_range
    (db : DB) (cid : Z) (body : ContactUpdateSchema.t) :
  cid < -2147483648 \/ 2147483647 < cid ->
  ContactRepository.get_contact_by_id cid db = (inl (DBAPIError OutOfRange), db)
  /\ ContactRepository.update_contact cid body db
     = (inl (DBAPIError OutOfRange), db)
  /\ ContactRepository.remove_contact cid db = (inl (DBAPIError OutOfRange), db)
  /\ routes.get_contact cid db = (mkResponse 500 InternalServerError, db)
  /\ routes.update_contact cid body db = (mkResponse 500 InternalServerError, db)
  /\ routes.delete_contact cid db = (mkResponse 500 InternalServerError, db).
Proof.
  intros Hcid.
  assert (H : ContactRepository.get_contact_by_id cid db
              = (inl (DBAPIError OutOfRange), db))
    by (apply get_contact_by_id_out_of_range; lia).
  unfold routes.get_contact, routes.update_contact, routes.delete_contact,
    respond, ContactService.get_contact, ContactService.update_contact,
    ContactService.remove_contact, ContactRepository.update_contact,
    ContactRepository.remove_contact, bind.
  rewrite H. repeat split.
Qed.

Lemma identifier_out_of_range_witness :
  ContactRepository.get_contact_by_id 2147483648 two_contacts
  = (inl (DBAPIError OutOfRange), two_contacts)
  /\ routes.update_contact 2147483648 rename_alice two_contacts
     = (mkResponse 500 InternalServerError, two_contacts)
  /\ routes.delete_contact (-2147483649) two_contacts
     = (mkResponse 500 InternalServerError, two_contacts).
Proof.
  split; [|split].
  - apply (identifier_out_of_range two_contacts 2147483648 rename_alice). lia.
  - apply (identifier_out_of_range two_contacts 2147483648 rename_alice). lia.
  - apply (identifier_out_of_range two_contacts (-2147483649) rename_alice). lia.
Defined.
